(** * The test-fixture fix scripts: a shallow embedding

    The repository is a family of Python scripts that rewrite TypeScript
    test files with [re.sub], [re.search], [str.replace], [str.split] and
    the [in] operator.  This development embeds

    - Python text as a list of characters (code points below 256, the
      range in which the tables of [\s] and [\w] below are exact);
    - the fragment of Python's [re] syntax the scripts use, parsed from
      the pattern strings of the source by [re_compile];
    - [re]'s backtracking matcher (leftmost match, greedy and lazy
      repetition in priority order) in continuation-passing style;
    - [re.search], [re.finditer] and [re.sub] as the scanning loops of
      CPython;
    - the scripts themselves: their rewrite rules, the [TestFileFixer]
      class of [fix-test-files.py] with its [fixes_applied] list, the
      file system as a finite map from paths to texts together with the
      log of writes and of printed lines. *)

From Stdlib Require Import List Ascii String Arith Bool Lia DecimalString.
From stdpp Require Import gmap strings.
Import ListNotations.

Local Open Scope list_scope.
Local Open Scope nat_scope.

(** ** Text *)

Abbreviation text := (list ascii).

Definition nl : ascii := Ascii.ascii_of_nat 10.

(** A Python string literal: the characters of the literal with the
    escapes [\n], [\'] and [\\] of a non-raw literal interpreted. *)
Fixpoint unescape (s : text) : text :=
  match s with
  | [] => []
  | "\"%char :: "n"%char :: t => nl :: unescape t
  | "\"%char :: "'"%char :: t => "'"%char :: unescape t
  | "\"%char :: "\"%char :: t => "\"%char :: unescape t
  | a :: t => a :: unescape t
  end.

(** [raw s] is the raw literal [r"s"]; [py s] is the literal ["s"]. *)
Definition raw (s : string) : text := list_ascii_of_string s.
Definition py (s : string) : text := unescape (list_ascii_of_string s).

Definition ascii_eqb (a b : ascii) : bool := Ascii.eqb a b.

Fixpoint text_eqb (s t : text) : bool :=
  match s, t with
  | [], [] => true
  | a :: s', b :: t' => ascii_eqb a b && text_eqb s' t'
  | _, _ => false
  end.

(** [startswith p s]: [s.startswith(p)]. *)
Fixpoint startswith (p s : text) : bool :=
  match p, s with
  | [], _ => true
  | a :: p', b :: s' => ascii_eqb a b && startswith p' s'
  | _ :: _, [] => false
  end.

(** [contains needle s]: the Python expression [needle in s]. *)
Fixpoint contains (needle s : text) : bool :=
  startswith needle s ||
  match s with
  | [] => false
  | _ :: t => contains needle t
  end.

(** [partition_at needle s]: the text before the first occurrence of
    [needle] in [s] and the text after it, [s.partition(needle)] when
    the needle occurs. *)
Fixpoint partition_at (needle s : text) : option (text * text) :=
  if startswith needle s then Some ([], skipn (length needle) s)
  else match s with
       | [] => None
       | a :: t =>
           match partition_at needle t with
           | Some (u, v) => Some (a :: u, v)
           | None => None
           end
       end.

(** [split sep s]: [s.split(sep)] for a non-empty separator (Python
    raises [ValueError] on the empty one, which no script passes). *)
Fixpoint split_fuel (fuel : nat) (sep s : text) : list text :=
  match fuel with
  | 0 => [s]
  | S f =>
      match partition_at sep s with
      | Some (u, v) => u :: split_fuel f sep v
      | None => [s]
      end
  end.

Definition split (sep s : text) : list text := split_fuel (S (length s)) sep s.

(** [replace old new s]: [s.replace(old, new)], every non-overlapping
    occurrence from the left; with the empty [old], [new] is put before
    every character and at the end. *)
Fixpoint replace_fuel (fuel : nat) (old new s : text) : text :=
  match fuel with
  | 0 => s
  | S f =>
      match partition_at old s with
      | Some (u, v) => u ++ new ++ replace_fuel f old new v
      | None => s
      end
  end.

Definition replace (old new s : text) : text :=
  match old with
  | [] => new ++ concat (map (fun a => a :: new) s)
  | _ => replace_fuel (S (length s)) old new s
  end.

(** ** Character classes *)

(** The members of a class: [\s], [\S], [\w] or one character. *)
Inductive citem : Type :=
| ISpace
| INotSpace
| IWord
| ILit (a : ascii).

Definition in_range (lo hi n : nat) : bool := (lo <=? n) && (n <=? hi).

(** [str.isspace] on code points below 256, as [\s] of a str pattern. *)
Definition is_space (a : ascii) : bool :=
  let n := nat_of_ascii a in
  in_range 9 13 n || in_range 28 32 n || (n =? 133) || (n =? 160).

(** Alphanumeric code points below 256 and the underscore, as [\w]. *)
Definition is_word (a : ascii) : bool :=
  let n := nat_of_ascii a in
  in_range 48 57 n || in_range 65 90 n || in_range 97 122 n || (n =? 95)
  || (n =? 170) || (n =? 178) || (n =? 179) || (n =? 181) || (n =? 185)
  || (n =? 186) || in_range 188 190 n || in_range 192 214 n
  || in_range 216 246 n || in_range 248 255 n.

Definition imatch (i : citem) (a : ascii) : bool :=
  match i with
  | ISpace => is_space a
  | INotSpace => negb (is_space a)
  | IWord => is_word a
  | ILit b => ascii_eqb a b
  end.

(** [cmatch neg l a]: does [a] belong to the class [[l]] ([neg = false])
    or [[^l]] ([neg = true])? *)
Definition cmatch (neg : bool) (l : list citem) (a : ascii) : bool :=
  xorb neg (existsb (fun i => imatch i a) l).

(** ** Regular expressions *)

Inductive greed : Type := Greedy | Lazy.

Inductive regex : Type :=
| Eps
| Chr (a : ascii)
| Cls (neg : bool) (l : list citem)   (* [l] or [^l]; \s, \w, . *)
| Seq (r1 r2 : regex)
| Opt (r : regex)               (* r?  *)
| Star (g : greed) (r : regex)  (* r*  and  r*? *)
| Grp (i : nat) (r : regex).    (* the i-th capturing group *)

(** [r+] is [rr*]; a group under [+] is overwritten by every iteration,
    as in Python, since both copies carry the same number. *)
Definition Plus (g : greed) (r : regex) : regex := Seq r (Star g r).

Definition cls_dot : regex := Cls true [ILit nl].

(** *** Parsing the pattern strings of the source

    [re_compile] reads the fragment of [re]'s syntax the scripts use:
    literal and escaped characters, [\s] [\S] [\w], [.], bracket classes,
    capturing and [(?:...)] groups, and the quantifiers [*] [+] [?] with
    an optional lazy mark.  Groups are numbered by their opening
    parenthesis.  Anything else is refused with [None]. *)

(** An escape: [\s], [\S], [\w], [\n], or an escaped punctuation
    character, which stands for itself.  Other escaped letters and
    digits ([\d], [\b], back-references) are outside the fragment. *)
Definition escape_item (a : ascii) : option citem :=
  match a with
  | "s"%char => Some ISpace
  | "S"%char => Some INotSpace
  | "w"%char => Some IWord
  | "n"%char => Some (ILit nl)
  | _ => if is_word a then None else Some (ILit a)
  end.

Definition item_atom (i : citem) : regex :=
  match i with
  | ILit a => Chr a
  | _ => Cls false [i]
  end.

(** The members of a bracket class up to its closing bracket; ranges
    and a leading literal bracket are outside the fragment. *)
Fixpoint parse_class (s : text) : option (list citem * text) :=
  match s with
  | [] => None
  | "]"%char :: t => Some ([], t)
  | "-"%char :: _ => None
  | "\"%char :: a :: t =>
      match escape_item a, parse_class t with
      | Some i, Some (l, t') => Some (i :: l, t')
      | _, _ => None
      end
  | a :: t =>
      match parse_class t with
      | Some (l, t') => Some (ILit a :: l, t')
      | None => None
      end
  end.

Definition parse_bracket (s : text) : option (regex * text) :=
  match s with
  | "^"%char :: t =>
      match parse_class t with
      | Some (i :: l, t') => Some (Cls true (i :: l), t')
      | _ => None
      end
  | _ =>
      match parse_class s with
      | Some (i :: l, t') => Some (Cls false (i :: l), t')
      | _ => None
      end
  end.

(** A quantifier after the atom [r], if there is one. *)
Definition parse_quant (r : regex) (s : text) : regex * text :=
  match s with
  | "*"%char :: "?"%char :: t => (Star Lazy r, t)
  | "+"%char :: "?"%char :: t => (Plus Lazy r, t)
  | "*"%char :: t => (Star Greedy r, t)
  | "+"%char :: t => (Plus Greedy r, t)
  | "?"%char :: t => (Opt r, t)
  | _ => (r, s)
  end.

(** [parse_seq fuel s n]: a sequence of quantified atoms up to a closing
    parenthesis or the end; [n] is the number of the next group. *)
Fixpoint parse_seq (fuel : nat) (s : text) (n : nat) : option (regex * text * nat) :=
  match fuel with
  | 0 => None
  | S f =>
      let continue (a : regex) (t : text) (n' : nat) :=
        let (q, t') := parse_quant a t in
        match parse_seq f t' n' with
        | Some (r, t'', n'') => Some (Seq q r, t'', n'')
        | None => None
        end in
      match s with
      | [] => Some (Eps, [], n)
      | ")"%char :: _ => Some (Eps, s, n)
      | "("%char :: "?"%char :: ":"%char :: t =>
          match parse_seq f t n with
          | Some (r, ")"%char :: t', n') => continue r t' n'
          | _ => None
          end
      | "("%char :: t =>
          match parse_seq f t (S n) with
          | Some (r, ")"%char :: t', n') => continue (Grp n r) t' n'
          | _ => None
          end
      | "["%char :: t =>
          match parse_bracket t with
          | Some (c, t') => continue c t' n
          | None => None
          end
      | "\"%char :: a :: t =>
          match escape_item a with
          | Some i => continue (item_atom i) t n
          | None => None
          end
      | "."%char :: t => continue cls_dot t n
      | "\"%char :: [] => None
      | "|"%char :: _ | "{"%char :: _ | "^"%char :: _ | "$"%char :: _
      | "*"%char :: _ | "+"%char :: _ | "?"%char :: _ => None
      | a :: t => continue (Chr a) t n
      end
  end.

Definition re_parse (pattern : text) : option regex :=
  match parse_seq (S (length pattern)) pattern 1 with
  | Some (r, [], _) => Some r
  | _ => None
  end.

(** [re_compile p]: the compiled pattern; a pattern outside the fragment
    compiles to the expression that matches nothing ([[]], the empty
    class), and [compiles] tells the two apart. *)
Definition re_compile (pattern : string) : regex :=
  match re_parse (raw pattern) with
  | Some r => r
  | None => Cls false []
  end.

Definition compiles (pattern : string) : bool :=
  match re_parse (raw pattern) with Some _ => true | None => false end.

(** ** The backtracking matcher *)

(** Captured groups: group number and captured text, most recent first. *)
Abbreviation caps := (list (nat * text)).

Fixpoint cap_lookup (i : nat) (c : caps) : option text :=
  match c with
  | [] => None
  | (j, w) :: c' => if i =? j then Some w else cap_lookup i c'
  end.

Section Matcher.
Context {A : Type}.

(** [star_loop step k g n s c]: the iterations of a repetition whose
    body is run by [step].  A greedy repetition first tries one more
    iteration and falls back on the continuation; a lazy one does the
    opposite.  An iteration that consumes nothing is cut, as in [re].
    [n] bounds the number of iterations by the length of the text. *)
Fixpoint star_loop
    (step : text -> caps -> (text -> caps -> option A) -> option A)
    (k : text -> caps -> option A)
    (g : greed) (n : nat) (s : text) (c : caps) : option A :=
  match n with
  | 0 => k s c
  | S n' =>
      let more :=
        step s c (fun s' c' =>
          if length s' <? length s then star_loop step k g n' s' c' else None) in
      match g with
      | Greedy => match more with Some x => Some x | None => k s c end
      | Lazy => match k s c with Some x => Some x | None => more end
      end
  end.

(** [mt r s c k]: match [r] at the head of [s] with the groups [c]
    captured so far, and hand what is left of [s] to [k]; when [k]
    refuses, the next alternative in priority order is tried. *)
Fixpoint mt (r : regex) (s : text) (c : caps)
    (k : text -> caps -> option A) {struct r} : option A :=
  match r with
  | Eps => k s c
  | Chr a =>
      match s with
      | b :: s' => if ascii_eqb a b then k s' c else None
      | [] => None
      end
  | Cls neg l =>
      match s with
      | b :: s' => if cmatch neg l b then k s' c else None
      | [] => None
      end
  | Seq r1 r2 => mt r1 s c (fun s' c' => mt r2 s' c' k)
  | Opt r1 =>
      match mt r1 s c k with
      | Some x => Some x
      | None => k s c
      end
  | Star g r1 => star_loop (mt r1) k g (length s) s c
  | Grp i r1 =>
      mt r1 s c (fun s' c' => k s' ((i, firstn (length s - length s') s) :: c'))
  end.
End Matcher.

(** ** Match objects, [re.search], [re.finditer], [re.sub] *)

Record Match : Type := mkMatch {
  m_start : nat;       (* m.start() *)
  m_end : nat;         (* m.end() *)
  group0 : text;       (* m.group(0) *)
  m_caps : caps
}.

(** [m.group(i)] for [i >= 1]: [None] for a group that took no part. *)
Definition group (m : Match) (i : nat) : option text := cap_lookup i (m_caps m).

(** A group interpolated in an f-string: [None] prints as its name. *)
Definition fmt (o : option text) : text :=
  match o with
  | Some w => w
  | None => raw "None"
  end.

(** [match_here r s adv]: a match of [r] at the head of [s]: what is
    left and the groups.  With [adv] an empty match is refused (the
    [must_advance] flag of CPython's scanner). *)
Definition match_here (r : regex) (s : text) (adv : bool) : option (text * caps) :=
  mt r s [] (fun s' c =>
    if adv && (length s' =? length s) then None else Some (s', c)).

(** [scan r pos s adv]: the leftmost match in [s], a suffix of the
    subject that starts at offset [pos].  [adv] holds at the first
    position only. *)
Fixpoint scan (r : regex) (pos : nat) (s : text) (adv : bool) : option Match :=
  match match_here r s adv with
  | Some (s', c) =>
      let n := length s - length s' in
      Some (mkMatch pos (pos + n) (firstn n s) c)
  | None =>
      match s with
      | [] => None
      | _ :: t => scan r (S pos) t false
      end
  end.

(** [re.search(r, s)]. *)
Definition re_search (r : regex) (s : text) : option Match := scan r 0 s false.

(** [finditer_loop fuel r pos s adv]: the matches of [r] in the suffix
    [s] at offset [pos], from the left and without overlap; after an
    empty match the next one must advance. *)
Fixpoint finditer_loop (fuel : nat) (r : regex) (pos : nat) (s : text) (adv : bool)
    : list Match :=
  match fuel with
  | 0 => []
  | S f =>
      match scan r pos s adv with
      | None => []
      | Some m =>
          m :: finditer_loop f r (m_end m) (skipn (m_end m - pos) s)
                 (m_end m =? m_start m)
      end
  end.

Definition re_finditer (r : regex) (s : text) : list Match :=
  finditer_loop (2 * length s + 2) r 0 s false.

(** [sub_loop fuel r repl pos s adv]: the loop of [re.sub]: the text up
    to the next match is copied, the match is replaced by [repl m], and
    the scan resumes at the end of the match. *)
Fixpoint sub_loop (fuel : nat) (r : regex) (repl : Match -> text)
    (pos : nat) (s : text) (adv : bool) : text :=
  match fuel with
  | 0 => s
  | S f =>
      match scan r pos s adv with
      | None => s
      | Some m =>
          firstn (m_start m - pos) s ++ repl m ++
          sub_loop f r repl (m_end m) (skipn (m_end m - pos) s)
            (m_end m =? m_start m)
      end
  end.

(** [re.sub(r, repl, s)] with a callable [repl]. *)
Definition re_sub (r : regex) (repl : Match -> text) (s : text) : text :=
  sub_loop (2 * length s + 2) r repl 0 s false.

(** [re.sub(r, repl, s, count=1)]: the first match only. *)
Definition re_sub1 (r : regex) (repl : Match -> text) (s : text) : text :=
  sub_loop 1 r repl 0 s false.

(** [expand template m]: the replacement template of [re.sub] given as a
    string: [\1] to [\9] stand for the groups (the empty text for a
    group that took no part), [\n] for a newline. *)
Fixpoint expand (template : text) (m : Match) : text :=
  match template with
  | [] => []
  | "\"%char :: a :: t =>
      let n := nat_of_ascii a in
      if in_range 49 57 n
      then match group m (n - 48) with Some w => w | None => [] end ++ expand t m
      else if ascii_eqb a "n" then nl :: expand t m
      else "\"%char :: a :: expand t m
  | a :: t => a :: expand t m
  end.

(** [sep.join(l)]. *)
Fixpoint join (sep : text) (l : list text) : text :=
  match l with
  | [] => []
  | [x] => x
  | x :: l' => x ++ sep ++ join sep l'
  end.

(** ** The world of the scripts

    The files on disk, every write in the order it happened, and the
    lines printed. *)
Record World : Type := mkWorld {
  files : gmap string text;
  written : list (string * text);
  printed : list text
}.

Definition exists_file (path : string) (w : World) : bool :=
  match files w !! path with Some _ => true | None => false end.

(** [f.read()] of an existing file. *)
Definition read_file (path : string) (w : World) : text :=
  match files w !! path with Some c => c | None => [] end.

(** [open(path, 'w')] and [f.write(content)]. *)
Definition write_file (path : string) (content : text) (w : World) : World :=
  mkWorld (<[path := content]> (files w)) (written w ++ [(path, content)]) (printed w).

Definition print (line : text) (w : World) : World :=
  mkWorld (files w) (written w) (printed w ++ [line]).

(** ** [fix-test-files.py]: the consolidated fixer *)

Module Consolidated.

(** The state of a [TestFileFixer] object and of the world it runs in;
    the methods are computations over it. *)
Record State : Type := mkState {
  fixes_applied : list text;
  world : World
}.

Definition M (A : Type) : Type := State -> A * State.
Definition ret {A} (x : A) : M A := fun st => (x, st).
Definition bind {A B} (m : M A) (f : A -> M B) : M B :=
  fun st => let (x, st') := m st in f x st'.

Notation "x <- m ;; k" := (bind m (fun x => k))
  (at level 100, m at next level, right associativity).
Notation "m ;;; k" := (bind m (fun _ => k))
  (at level 100, right associativity).

(** [self.fixes_applied.append(name)] and [self.fixes_applied = []]. *)
Definition append_fix (name : text) : M unit :=
  fun st => (tt, mkState (fixes_applied st ++ [name]) (world st)).
Definition reset_fixes : M unit :=
  fun st => (tt, mkState [] (world st)).
Definition get_fixes : M (list text) :=
  fun st => (fixes_applied st, st).
Definition lift_world (f : World -> World) : M unit :=
  fun st => (tt, mkState (fixes_applied st) (f (world st))).
Definition ask_world {A} (f : World -> A) : M A :=
  fun st => (f (world st), st).

Definition helper_function : text :=
  py "\n// Helper for creating valid Lexical content\n" ++
  py "const createLexicalContent = (text: string) => ({\n" ++
  py "  root: {\n" ++
  py "    type: 'root',\n" ++
  py "    children: [\n" ++
  py "      {\n" ++
  py "        type: 'paragraph',\n" ++
  py "        version: 1,\n" ++
  py "        children: [{ type: 'text', text }],\n" ++
  py "        direction: null,\n" ++
  py "        format: '' as const,\n" ++
  py "        indent: 0,\n" ++
  py "      },\n" ++
  py "    ],\n" ++
  py "    direction: null,\n" ++
  py "    format: '' as const,\n" ++
  py "    indent: 0,\n" ++
  py "    version: 1,\n" ++
  py "  },\n" ++
  py "})\n".

Definition import_pattern : regex :=
  Eval vm_compute in re_compile "(import .+\n)+".

(** [add_lexical_helper]: the position after the imports is the end of
    the first match of the import pattern. *)
Definition add_lexical_helper (content : text) : M text :=
  if negb (contains (raw "createLexicalContent") content) then
    match re_search import_pattern content with
    | Some import_end =>
        let insert_pos := m_end import_end in
        append_fix (raw "Added Lexical helper function") ;;;
        ret (firstn insert_pos content ++ helper_function ++ skipn insert_pos content)
    | None => ret content
    end
  else ret content.

Definition pattern1 : regex :=
  Eval vm_compute in
  re_compile "(await payload\.create\(\{\s+collection: 'users',\s+data: \{[^}]+\},)\s+(\}\))".

Definition add_draft (m : Match) : text :=
  fmt (group m 1) ++ py "\n      draft: false,\n    " ++ fmt (group m 2).

Definition test_user_pattern : regex :=
  Eval vm_compute in
  re_compile "email: `test-\w+-\$\{Date\.now\(\)\}@example\.com`,\s+password: 'test123',\s+roles: \['user'\],".

Definition test_user_repl (m : Match) : text :=
  replace (py "password: 'test123',\n        firstName:") (py "firstName:")
    (replace (py "roles: ['user'],")
       (py "firstName: 'Test',\n        lastName: 'User',\n        password: 'test123',\n        roles: ['user'],")
       (group0 m)).

Definition another_user_pattern : regex :=
  Eval vm_compute in
  re_compile "email: `another-\w+-\$\{Date\.now\(\)\}@example\.com`,\s+password: 'test123',\s+roles: \['user'\],".

Definition another_user_repl (m : Match) : text :=
  replace (py "password: 'test123',\n          firstName:") (py "firstName:")
    (replace (py "roles: ['user'],")
       (py "firstName: 'Another',\n          lastName: 'User',\n          password: 'test123',\n          roles: ['user'],")
       (group0 m)).

(** The three rewrites of [fix_user_creation], without the report. *)
Definition user_creation_text (content : text) : text :=
  let content := re_sub pattern1 add_draft content in
  let content := re_sub test_user_pattern test_user_repl content in
  re_sub another_user_pattern another_user_repl content.

Definition fix_user_creation (content : text) : M text :=
  let original_content := content in
  let content := user_creation_text content in
  (if negb (text_eqb content original_content)
   then append_fix (raw "Fixed user creation") else ret tt) ;;;
  ret content.

Definition root_pattern : regex :=
  Eval vm_compute in
  re_compile "(children: \[\s*\{\s*type: 'paragraph',\s*version: 1,\s*children: \[[^\]]+\],\s*\},\s*\],)\s*(\}\s*\})".

Definition root_pattern2 : regex :=
  Eval vm_compute in
  re_compile "(children: \[\s*(?:\{\s*type: 'paragraph',\s*version: 1,\s*children: \[[^\]]+\],\s*\},\s*)+\],)\s*(\}\s*\})".

Definition add_root_properties (m : Match) : text :=
  fmt (group m 1) ++
  py "\n              direction: null,\n              format: '',\n              indent: 0,\n              version: 1,\n            " ++
  fmt (group m 2).

Definition root_structures_text (content : text) : text :=
  let content := re_sub root_pattern add_root_properties content in
  re_sub root_pattern2 add_root_properties content.

Definition fix_root_structures (content : text) : M text :=
  let original_content := content in
  let content := root_structures_text content in
  (if negb (text_eqb content original_content)
   then append_fix (raw "Fixed root structures") else ret tt) ;;;
  ret content.

Definition lexical_pattern : regex :=
  Eval vm_compute in
  re_compile "content: \{\s+root: \{\s+type: 'root',\s+children: \[\s+\{\s+type: 'paragraph',\s+version: 1,\s+children: \[\{ type: 'text', text: '([^']+)' \}\],\s+(?:direction: null,\s+format: '',\s+indent: 0,\s+version: 1,\s+)?\},\s+\],\s+(?:direction: null,\s+format: '',\s+indent: 0,\s+version: 1,\s+)?\},\s+\},".

Definition replace_content (m : Match) : text :=
  let text := fmt (group m 1) in
  raw "content: createLexicalContent('" ++ text ++ raw "'),".

Definition lexical_content_text (content : text) : text :=
  re_sub lexical_pattern replace_content content.

Definition fix_lexical_content (content : text) : M text :=
  let original_content := content in
  let content := lexical_content_text content in
  (if negb (text_eqb content original_content)
   then append_fix (raw "Fixed Lexical content structures") else ret tt) ;;;
  ret content.

(** [not fix_types or name in fix_types]. *)
Definition selected (name : string) (fix_types : option (list text)) : bool :=
  match fix_types with
  | None | Some [] => true
  | Some l => existsb (text_eqb (raw name)) l
  end.

Definition when (b : bool) (f : text -> M text) (content : text) : M text :=
  if b then f content else ret content.

(** The four fixes in the order of [process_file]. *)
Definition apply_fixes (fix_types : option (list text)) (content : text) : M text :=
  content <- when (selected "lexical-helper" fix_types) add_lexical_helper content ;;
  content <- when (selected "user-creation" fix_types) fix_user_creation content ;;
  content <- when (selected "root-structures" fix_types) fix_root_structures content ;;
  when (selected "lexical-content" fix_types) fix_lexical_content content.

Definition process_file (filepath : string) (fix_types : option (list text)) : M bool :=
  present <- ask_world (exists_file filepath) ;;
  if negb present then
    lift_world (print (raw "SKIP: " ++ raw filepath ++ raw " not found")) ;;;
    ret false
  else
    content <- ask_world (read_file filepath) ;;
    let original_content := content in
    reset_fixes ;;;
    content <- apply_fixes fix_types content ;;
    if negb (text_eqb content original_content) then
      lift_world (write_file filepath content) ;;;
      fixes <- get_fixes ;;
      lift_world (print (raw "FIXED: " ++ raw filepath ++ raw " - " ++ join (raw ", ") fixes)) ;;;
      ret true
    else
      lift_world (print (raw "NO CHANGES: " ++ raw filepath)) ;;;
      ret false.

(** The text [process_file] leaves in a file that holds [content]. *)
Definition apply (fix_types : option (list text)) (content : text) : text :=
  fst (apply_fixes fix_types content (mkState [] (mkWorld ∅ [] []))).

(** *** [main]

    The command line as [argparse] sees it after tokenising: the
    positional [files], the values given to [--fix-types] ([None] when
    the option is absent) and the value of [--pattern]. *)
Record Namespace : Type := mkNamespace {
  ns_files : list string;
  ns_fix_types : option (list text);
  ns_pattern : option string
}.

(** The [choices] of [--fix-types]. *)
Definition choices : list text :=
  [ raw "lexical-helper"; raw "user-creation"; raw "root-structures"; raw "lexical-content" ].

(** [parser.error]: [argparse] reports the first value that is not
    among the choices and exits with status 2. *)
Inductive ArgError : Type :=
| InvalidChoice (value : text).

Fixpoint check_choices (values : list text) : option ArgError :=
  match values with
  | [] => None
  | v :: values' =>
      if existsb (text_eqb v) choices then check_choices values'
      else Some (InvalidChoice v)
  end.

Definition parse_args (argv : Namespace) : ArgError + Namespace :=
  match ns_fix_types argv with
  | None => inr argv
  | Some values =>
      match check_choices values with
      | Some e => inl e
      | None => inr argv
      end
  end.

Definition default_files : list string :=
  [ "tests/int/blogs.int.spec.ts";
    "tests/int/legal.int.spec.ts";
    "tests/int/services.int.spec.ts";
    "tests/int/pages.int.spec.ts";
    "tests/int/access-control.int.spec.ts";
    "tests/int/contacts.int.spec.ts";
    "tests/performance/hooks.perf.spec.ts";
    "tests/performance/queries.perf.spec.ts";
    "tests/pbt/utilities/circularReference.pbt.spec.ts" ]%string.

(** [str(n)]. *)
Definition str_of_nat (n : nat) : text :=
  list_ascii_of_string (NilEmpty.string_of_uint (Nat.to_uint n)).

(** The loop of [main] over the files: the number of files fixed. *)
Fixpoint process_all (paths : list string) (fix_types : option (list text))
    (fixed_count : nat) : M nat :=
  match paths with
  | [] => ret fixed_count
  | filepath :: paths' =>
      fixed <- process_file filepath fix_types ;;
      process_all paths' fix_types (if fixed then fixed_count + 1 else fixed_count)
  end.

(** How an invocation ends: the exit of [argparse] on a bad command
    line, or the normal end of [main]. *)
Inductive Outcome : Type :=
| SystemExit2 (e : ArgError)
| Finished.

Section Main.
(** [glob.glob(pattern, recursive=True)] on the files of the world. *)
Variable glob : World -> string -> list string.

Definition main (argv : Namespace) (w : World) : Outcome * World :=
  match parse_args argv with
  | inl e => (SystemExit2 e, w)
  | inr args =>
      let files_to_process :=
        match ns_files args with
        | [] => default_files
        | l => l
        end in
      let files_to_process :=
        match ns_pattern args with
        | None | Some EmptyString => files_to_process
        | Some pattern => glob w pattern
        end in
      let fixer := mkState [] w in
      let (fixed_count, fixer) :=
        process_all files_to_process (ns_fix_types args) 0 fixer in
      (Finished,
       print (py "\nProcessed " ++ str_of_nat (length files_to_process) ++
              raw " files, fixed " ++ str_of_nat fixed_count ++ raw " files")
         (world fixer))
  end.
End Main.

End Consolidated.

(** The scripts below run at module level over a fixed list of paths:
    [run body paths w] is the [for filepath in paths] loop, where a
    missing file is reported with [skip] and left alone. *)
Definition for_each_file (skip : string -> text) (body : string -> text -> World -> World)
    (paths : list string) (w : World) : World :=
  fold_left
    (fun w filepath =>
       if negb (exists_file filepath w) then print (skip filepath) w
       else body filepath (read_file filepath w) w)
    paths w.

(** ** [fix_test_files.py] *)

Module FixTestFiles.

Definition test_files : list string :=
  [ "tests/int/blogs.int.spec.ts";
    "tests/int/legal.int.spec.ts";
    "tests/int/services.int.spec.ts";
    "tests/int/pages.int.spec.ts" ]%string.

Definition pattern : regex :=
  Eval vm_compute in
  re_compile "(root: \{\s+type: 'root',\s+children: \[[\s\S]*?\],)\s+(\}\s+\})".

Definition replacement : text :=
  raw "\1\n                direction: null,\n                format: '',\n                indent: 0,\n                version: 1,\n              \2".

Definition fix_text (content : text) : text :=
  re_sub pattern (expand replacement) content.

(** The body of the loop: the file is written back and reported as
    fixed whatever the substitution did. *)
Definition fix_one (filepath : string) (content : text) (w : World) : World :=
  let content := fix_text content in
  print (raw "FIXED: " ++ raw filepath) (write_file filepath content w).

Definition run_on (paths : list string) (w : World) : World :=
  print (py "\nAll test files processed")
    (for_each_file (fun p => raw "SKIP: " ++ raw p ++ raw " not found") fix_one paths w).

Definition run : World -> World := run_on test_files.

End FixTestFiles.

(** ** [fix_test_files_carefully.py] *)

Module Carefully.

Definition files_to_fix : list string :=
  [ "tests/int/access-control.int.spec.ts";
    "tests/int/blogs.int.spec.ts";
    "tests/int/legal.int.spec.ts";
    "tests/int/pages.int.spec.ts";
    "tests/int/services.int.spec.ts" ]%string.

(** The pattern of the outer [re.sub]; it is compiled with [re.DOTALL],
    which only changes the meaning of [.], and the pattern has none. *)
Definition block_pattern : regex :=
  Eval vm_compute in
  re_compile "content: \{\s*root: \{[^}]+type: \'root\',[^}]+children: \[[^\]]+\],[^}]*\}".

Definition pattern : regex :=
  Eval vm_compute in re_compile "(children: \[[^\]]+\],)\s*\}".

Definition add_props (m : Match) : text :=
  fmt (group m 1) ++
  py "\n              direction: null,\n              format: \'\',\n              indent: 0,\n              version: 1,\n            }".

(** [root_part] and [rest] of [fix_content_block].  The indices are in
    range on a block matched by [block_pattern], which contains
    ['children:']. *)
Definition root_part (block : text) : text :=
  nth 0 (split (raw "children:") block) [] ++ raw "children:" ++
  nth 0 (split (raw "],") (nth 1 (split (raw "children:") block) [])) [] ++ raw "],".

Definition rest (block : text) : text := skipn (length (root_part block)) block.

(** The test under which [fix_content_block] returns the block as it
    is: "Already complete". *)
Definition already_complete (block : text) : bool :=
  contains (raw "direction:") block && contains (raw "format:") block
  && contains (raw "indent:") block
  && contains (raw "version:") (nth 0 (split (raw "}") (rest block)) []).

Definition fix_content_block (m : Match) : text :=
  let block := group0 m in
  if already_complete block then block
  else re_sub1 pattern add_props block.

Definition fix_text (content : text) : text :=
  re_sub block_pattern fix_content_block content.

(** The body of the loop; the check mark the script prints before
    "Fixed" lies outside the character range and is left out. *)
Definition fix_one (filepath : string) (content : text) (w : World) : World :=
  let w := print (raw "Processing " ++ raw filepath ++ raw "...") w in
  let content := fix_text content in
  print (raw "  Fixed " ++ raw filepath) (write_file filepath content w).

Definition run_on (paths : list string) (w : World) : World :=
  print (py "\nAll files processed!")
    (for_each_file (fun p => raw "Skipping " ++ raw p ++ raw " - file not found")
       fix_one paths w).

Definition run : World -> World := run_on files_to_fix.

End Carefully.

(** ** [fix_all_remaining_errors.py] *)

Module RemainingErrors.

Definition test_files : list string :=
  [ "tests/int/blogs.int.spec.ts";
    "tests/int/legal.int.spec.ts";
    "tests/int/services.int.spec.ts";
    "tests/int/pages.int.spec.ts";
    "tests/int/access-control.int.spec.ts";
    "tests/int/contacts.int.spec.ts";
    "tests/performance/hooks.perf.spec.ts";
    "tests/performance/queries.perf.spec.ts";
    "tests/pbt/circularReference.pbt.spec.ts" ]%string.

Definition pattern1 : regex :=
  Eval vm_compute in
  re_compile "(await payload\.create\(\{\s+collection: 'users',\s+data: \{[^}]+\},)\s+(\}\))".

Definition add_draft (m : Match) : text :=
  fmt (group m 1) ++ py "\n      draft: false,\n    " ++ fmt (group m 2).

Definition pattern2 : regex :=
  Eval vm_compute in
  re_compile "(children: \[\s*\{\s*type: 'paragraph',\s*version: 1,\s*children: \[[^\]]+\],\s*\},\s*\],)\s*(\}\s*\})".

Definition add_root_properties (m : Match) : text :=
  fmt (group m 1) ++
  py "\n              direction: null,\n              format: '',\n              indent: 0,\n              version: 1,\n            " ++
  fmt (group m 2).

Definition pattern3 : regex :=
  Eval vm_compute in
  re_compile "(children: \[\s*(?:\{\s*type: 'paragraph',\s*version: 1,\s*children: \[[^\]]+\],\s*\},\s*)+\],)\s*(\}\s*\})".

(** One fix of the script: the substitution, and its label appended to
    [changes] when the text changed. *)
Definition fix_step (r : regex) (repl : Match -> text) (label : text)
    (st : text * list text) : text * list text :=
  let (content, changes) := st in
  let new_content := re_sub r repl content in
  if negb (text_eqb new_content content) then (new_content, changes ++ [label])
  else (content, changes).

(** The three fixes: the final text and the list [changes]. *)
Definition fix_all (content : text) : text * list text :=
  fix_step pattern3 add_root_properties (raw "Added root properties (multi-paragraph)")
    (fix_step pattern2 add_root_properties (raw "Added root properties")
       (fix_step pattern1 add_draft (raw "Added draft property to user creation")
          (content, []))).

Definition fix_one (filepath : string) (content : text) (w : World) : World :=
  let original_content := content in
  let (content, changes) := fix_all content in
  if negb (text_eqb content original_content) then
    print (raw "FIXED: " ++ raw filepath ++ raw " - " ++ join (raw ", ") changes)
      (write_file filepath content w)
  else print (raw "NO CHANGES: " ++ raw filepath) w.

Definition run_on (paths : list string) (w : World) : World :=
  print (py "\nAll test files processed")
    (for_each_file (fun p => raw "SKIP: " ++ raw p ++ raw " not found") fix_one paths w).

Definition run : World -> World := run_on test_files.

End RemainingErrors.

(** ** [fix_user_creation.py] *)

Module UserCreation.

Definition files_to_fix : list string :=
  [ "tests/int/access-control.int.spec.ts";
    "tests/int/blogs.int.spec.ts";
    "tests/int/legal.int.spec.ts";
    "tests/int/pages.int.spec.ts";
    "tests/int/services.int.spec.ts";
    "tests/int/contacts.int.spec.ts" ]%string.

Definition pattern : regex :=
  Eval vm_compute in
  re_compile "(collection: 'users',\s*data: \{[^}]+\},)\s*draft: false,\s*\}".

Definition replacement : text := raw "\1\n      }".

(** Remove [draft: false,] from user creation. *)
Definition remove_draft (content : text) : text :=
  re_sub pattern (expand replacement) content.

Definition fix_one (filepath : string) (content : text) (w : World) : World :=
  let w := print (raw "Processing " ++ raw filepath ++ raw "...") w in
  let content := remove_draft content in
  print (raw "  Fixed " ++ raw filepath) (write_file filepath content w).

Definition run_on (paths : list string) (w : World) : World :=
  print (py "\nAll files processed!")
    (for_each_file (fun p => raw "Skipping " ++ raw p ++ raw " - file not found")
       fix_one paths w).

Definition run : World -> World := run_on files_to_fix.

End UserCreation.

(** ** [fix_all_test_content.py] *)

Module AllTestContent.

Definition test_files : list string :=
  [ "tests/int/contacts.int.spec.ts";
    "tests/int/legal.int.spec.ts";
    "tests/int/services.int.spec.ts";
    "tests/int/pages.int.spec.ts" ]%string.

(** The same text as the helper of [fix-test-files.py]. *)
Definition helper_function : text := Consolidated.helper_function.

Definition import_pattern : regex :=
  Eval vm_compute in re_compile "(import .+\n)+".

(** Add the helper function after the imports if not already present. *)
Definition insert_helper (content : text) : text :=
  if negb (contains (raw "createLexicalContent") content) then
    match re_search import_pattern content with
    | Some import_end =>
        let insert_pos := m_end import_end in
        firstn insert_pos content ++ helper_function ++ skipn insert_pos content
    | None => content
    end
  else content.

Definition test_user_pattern : regex :=
  Eval vm_compute in
  re_compile "email: `test-\w+-\$\{Date\.now\(\)\}@example\.com`,\s+password: 'test123',\s+roles: \['user'\],".

Definition test_user_repl (m : Match) : text :=
  replace (py "password: 'test123',\n        firstName:") (py "firstName:")
    (replace (py "roles: ['user'],")
       (py "firstName: 'Test',\n        lastName: 'User',\n        password: 'test123',\n        roles: ['user'],")
       (group0 m)).

Definition another_user_pattern : regex :=
  Eval vm_compute in
  re_compile "email: `another-\w+-\$\{Date\.now\(\)\}@example\.com`,\s+password: 'test123',\s+roles: \['user'\],".

Definition another_user_repl (m : Match) : text :=
  replace (py "password: 'test123',\n          firstName:") (py "firstName:")
    (replace (py "roles: ['user'],")
       (py "firstName: 'Another',\n          lastName: 'User',\n          password: 'test123',\n          roles: ['user'],")
       (group0 m)).

(** Fix user creation: add [firstName] and [lastName]. *)
Definition fix_users (content : text) : text :=
  re_sub another_user_pattern another_user_repl
    (re_sub test_user_pattern test_user_repl content).

Definition pattern : regex :=
  Eval vm_compute in
  re_compile "content: \{\s+root: \{\s+type: 'root',\s+children: \[\s+\{\s+type: 'paragraph',\s+version: 1,\s+children: \[\{ type: 'text', text: '([^']+)' \}\],\s+(?:direction: null,\s+format: '',\s+indent: 0,\s+version: 1,\s+)?\},\s+\],\s+(?:direction: null,\s+format: '',\s+indent: 0,\s+version: 1,\s+)?\},\s+\},".

Definition replace_content (m : Match) : text :=
  let text := fmt (group m 1) in
  raw "content: createLexicalContent('" ++ text ++ raw "'),".

Definition fix_text (content : text) : text :=
  re_sub pattern replace_content (fix_users (insert_helper content)).

Definition fix_one (file_path : string) (content : text) (w : World) : World :=
  let w := print (raw "Processing " ++ raw file_path ++ raw "...") w in
  let content := fix_text content in
  print (raw "Fixed " ++ raw file_path) (write_file file_path content w).

Definition run_on (paths : list string) (w : World) : World :=
  print (raw "All test files fixed!")
    (for_each_file (fun p => raw "Skipping " ++ raw p ++ raw " - file not found")
       fix_one paths w).

Definition run : World -> World := run_on test_files.

End AllTestContent.

(** ** [fix_tests_final.py] *)

Module TestsFinal.

Definition COMPLETE_ROOT : text :=
  py "root: {\n" ++
  py "                type: 'root',\n" ++
  py "                children: [\n" ++
  py "                  {\n" ++
  py "                    type: 'paragraph',\n" ++
  py "                    version: 1,\n" ++
  py "                    children: [{ type: 'text', text: 'CONTENT_TEXT' }],\n" ++
  py "                  },\n" ++
  py "                ],\n" ++
  py "                direction: null,\n" ++
  py "                format: '',\n" ++
  py "                indent: 0,\n" ++
  py "                version: 1,\n" ++
  py "              }".

Definition incomplete (text : list ascii) : list ascii :=
  py "root: {\n" ++
  py "                type: 'root',\n" ++
  py "                children: [\n" ++
  py "                  {\n" ++
  py "                    type: 'paragraph',\n" ++
  py "                    version: 1,\n" ++
  py "                    children: [{ type: 'text', text: '" ++ text ++ py "' }],\n" ++
  py "                  },\n" ++
  py "                ],\n" ++
  py "              }".

(** The loop of [fix_file] over [content_texts]. *)
Definition fix_text (content_texts : list text) (content : text) : text :=
  fold_left
    (fun content text =>
       let complete := replace (raw "CONTENT_TEXT") text COMPLETE_ROOT in
       replace (incomplete text) complete content)
    content_texts content.

(** [fix_file]: [None] is the [FileNotFoundError] of [open] on a
    missing file; otherwise the file is written back in any case. *)
Definition fix_file (filepath : string) (content_texts : list text) (w : World)
    : option World :=
  match files w !! filepath with
  | None => None
  | Some content =>
      let content := fix_text content_texts content in
      Some (print (raw "Fixed " ++ raw filepath) (write_file filepath content w))
  end.

End TestsFinal.

(** ** [fix_root_structure.py] *)

Module RootStructure.

Definition test_files : list string :=
  [ "tests/int/blogs.int.spec.ts";
    "tests/int/legal.int.spec.ts";
    "tests/int/services.int.spec.ts";
    "tests/int/pages.int.spec.ts" ]%string.

Definition pattern : regex :=
  Eval vm_compute in
  re_compile "(\s+children: \[\s*\{\s*type: 'paragraph',\s*version: 1,\s*children: \[\{ type: 'text', text: '[^']*' \}\],\s*\},\s*\],)\s*(\}\s*\})".

Definition add_properties (m : Match) : text :=
  let children_part := fmt (group m 1) in
  let closing_braces := fmt (group m 2) in
  children_part ++
  py "\n              direction: null,\n              format: '',\n              indent: 0,\n              version: 1,\n            " ++
  closing_braces.

Definition fix_text (content : text) : text :=
  re_sub pattern add_properties content.

(** The body of the loop: the file is written when the substitution
    changed its text. *)
Definition fix_one (filepath : string) (content : text) (w : World) : World :=
  let original_content := content in
  let content := fix_text content in
  if negb (text_eqb content original_content) then
    print (raw "FIXED: " ++ raw filepath) (write_file filepath content w)
  else print (raw "NO CHANGES: " ++ raw filepath) w.

Definition run_on (paths : list string) (w : World) : World :=
  print (py "\nAll test files processed")
    (for_each_file (fun p => raw "SKIP: " ++ raw p ++ raw " not found") fix_one paths w).

Definition run : World -> World := run_on test_files.

End RootStructure.

(** ** [fix_blogs_lexical.py] *)

Module BlogsLexical.

Definition path : string := "tests/int/blogs.int.spec.ts".

Definition pattern : regex :=
  Eval vm_compute in
  re_compile "content: \{\s+root: \{\s+type: 'root',\s+children: \[\s+\{\s+type: 'paragraph',\s+version: 1,\s+children: \[\{ type: 'text', text: '([^']+)' \}\],\s+(?:direction: null,\s+format: '',\s+indent: 0,\s+version: 1,\s+)?\},\s+\],\s+(?:direction: null,\s+format: '',\s+indent: 0,\s+version: 1,\s+)?\},\s+\},".

Definition replace_content (m : Match) : text :=
  let text := fmt (group m 1) in
  raw "content: createLexicalContent('" ++ text ++ raw "'),".

Definition fix_text (content : text) : text :=
  re_sub pattern replace_content content.

(** The script: [None] is the [FileNotFoundError] of [open] on a missing
    file; otherwise the file is written back in any case. *)
Definition run (w : World) : option World :=
  match files w !! path with
  | None => None
  | Some content =>
      let content := fix_text content in
      Some (print (raw "Fixed all Lexical content structures")
              (write_file path content w))
  end.

End BlogsLexical.

(** ** [fix_blogs_content.py] *)

Module BlogsContent.

Definition path : string := "tests/int/blogs.int.spec.ts".

Definition pattern : regex :=
  Eval vm_compute in
  re_compile "(root: \{\s*type: 'root',\s*children: \[[^\]]+\],\s*)\}".

(** [match.group(1) + "..."]; group 1 takes part in every match of the
    pattern. *)
Definition replacement (m : Match) : text :=
  fmt (group m 1) ++
  py "direction: null,\n              format: '',\n              indent: 0,\n              version: 1,\n            }".

Definition fix_text (content : text) : text :=
  re_sub pattern replacement content.

Definition run (w : World) : option World :=
  match files w !! path with
  | None => None
  | Some content =>
      let content := fix_text content in
      Some (print (raw "Fixed all root structures in blogs.int.spec.ts")
              (write_file path content w))
  end.

End BlogsContent.

(** ** [fix_tests_final.py]: the calls at module level *)

Module TestsFinalMain.

(** The four calls of [fix_file], in order. *)
Definition jobs : list (string * list text) :=
  [ ("tests/int/blogs.int.spec.ts"%string,
     [ raw "Test content"; raw "Content"; raw "Original content";
       raw "Draft content"; raw "Content 1"; raw "Content 2" ]);
    ("tests/int/access-control.int.spec.ts"%string,
     [ raw "Content" ]);
    ("tests/int/legal.int.spec.ts"%string,
     [ raw "Privacy policy content"; raw "Legal content"; raw "Original content";
       raw "Terms content"; raw "Content"; raw "Content 1"; raw "Content 2";
       raw "Privacy content" ]);
    ("tests/int/services.int.spec.ts"%string,
     [ raw "Service description"; raw "Original description"; raw "Description";
       raw "Description 1"; raw "Description 2"; raw "Featured description";
       raw "Draft description" ]) ].

(** How the script ends: the exception of the first [open] that fails,
    which nothing catches, or its last line. *)
Inductive Outcome : Type :=
| FileNotFoundError (filepath : string)
| Finished.

(** The calls one after the other; the marks the script prints before
    its messages lie outside the character range and are left out, as
    in [fix_file]. *)
Fixpoint run_jobs (l : list (string * list text)) (w : World) : Outcome * World :=
  match l with
  | [] => (Finished, print (py "\nAll test files fixed!") w)
  | (filepath, content_texts) :: l' =>
      match TestsFinal.fix_file filepath content_texts w with
      | None => (FileNotFoundError filepath, w)
      | Some w' => run_jobs l' w'
      end
  end.

Definition run : World -> Outcome * World := run_jobs jobs.

End TestsFinalMain.

(** * Definitions for the statements

    What a pattern matches, the rewriting that [re.sub] performs on the
    matches, the tests and the texts that the statements below speak
    of. *)


(** ** What a pattern matches

    [den r w c c']: the text [w] is matched by [r], and the groups go
    from [c] to [c'].  The matcher only ever returns such matches. *)

Inductive star_den (P : text -> caps -> caps -> Prop) : text -> caps -> caps -> Prop :=
| star_nil c : star_den P [] c c
| star_cons w1 w2 c c1 c2 :
    P w1 c c1 -> star_den P w2 c1 c2 -> star_den P (w1 ++ w2) c c2.

Fixpoint den (r : regex) (w : text) (c c' : caps) : Prop :=
  match r with
  | Eps => w = [] /\ c' = c
  | Chr a => w = [a] /\ c' = c
  | Cls neg l => exists a, w = [a] /\ cmatch neg l a = true /\ c' = c
  | Seq r1 r2 => exists w1 w2 c1, w = w1 ++ w2 /\ den r1 w1 c c1 /\ den r2 w2 c1 c'
  | Opt r1 => (w = [] /\ c' = c) \/ den r1 w c c'
  | Star _ r1 => star_den (den r1) w c c'
  | Grp i r1 => exists c1, den r1 w c c1 /\ c' = (i, w) :: c1
  end.


(** [no_match r s]: [re.search(r, s)] is [None]. *)
Definition no_match (r : regex) (s : text) : bool :=
  match re_search r s with
  | None => true
  | Some _ => false
  end.

(** A pattern without groups captures nothing. *)
Fixpoint group_free (r : regex) : bool :=
  match r with
  | Eps | Chr _ | Cls _ _ => true
  | Seq r1 r2 => group_free r1 && group_free r2
  | Opt r1 | Star _ r1 => group_free r1
  | Grp _ _ => false
  end.

(** ** Following the matcher on a text of a known shape

    [fwd r w rest c c']: on [w ++ rest] the first path the matcher tries
    through [r] consumes [w], takes the groups from [c] to [c'], and the
    outcome is that of the continuation whenever the continuation
    accepts.  Greedy repetitions take the longest run, so [rest] must
    not extend it. *)
Definition fwd (r : regex) (w rest : text) (c c' : caps) : Prop :=
  forall (A : Type) (k : text -> caps -> option A) (x : A),
    k rest c' = Some x -> mt r (w ++ rest) c k = Some x.

(** [lit_then l r]: the characters of [l], then [r]. *)
Definition lit_then (l : text) (r : regex) : regex :=
  fold_right (fun a r' => Seq (Chr a) r') r l.

(** The text does not go on with a character of the class. *)
Definition stops (neg : bool) (l : list citem) (s : text) : bool :=
  match s with
  | [] => true
  | a :: _ => negb (cmatch neg l a)
  end.

(** The characters every match of [r] starts with. *)
Fixpoint lit_prefix (r : regex) : text :=
  match r with
  | Chr a => [a]
  | Grp _ r1 => lit_prefix r1
  | Seq r1 r2 =>
      match r1 with
      | Chr a => a :: lit_prefix r2
      | Grp _ r1' => lit_prefix r1'
      | _ => []
      end
  | _ => []
  end.

(** [clear_run l p s]: [l] starts at no position of [p] in [p ++ s]. *)
Fixpoint clear_run (l p s : text) : bool :=
  match p with
  | [] => true
  | a :: p' => negb (startswith l (a :: p' ++ s)) && clear_run l p' s
  end.

(** [run_blocks P a l]: [l] cannot start inside a run of characters
    that satisfy [P] and are followed by [a]: before its first character
    outside [P], and at it, [l] holds no [a]. *)
Fixpoint run_blocks (P : ascii -> bool) (a : ascii) (l : text) : bool :=
  match l with
  | [] => false
  | x :: l' =>
      negb (ascii_eqb x a) && (if P x then run_blocks P a l' else true)
  end.

(** ** The helper injection *)

(** [import_line l]: the line [l] is [import ], at least one more
    character, and the newline that ends it: a match of [import .+\n]. *)
Definition import_line (l : text) : Prop :=
  exists x, x <> [] /\ ~ In nl x /\ l = raw "import " ++ x ++ [nl].

(** A block of import lines: what [(import .+\n)+] matches. *)
Definition import_block (block : text) : Prop :=
  exists lines, lines <> [] /\ Forall import_line lines /\ block = concat lines.

(** The body of the group of the import pattern: [import .+\n]. *)
Definition import_line_re : regex :=
  Eval vm_compute in
  match Consolidated.import_pattern with
  | Seq (Seq (Grp _ r) _) _ => r
  | _ => Eps
  end.

(** The same test written on the text alone: somewhere [import ] is
    followed on its line by at least one character, and the line is
    ended by a newline. *)
Fixpoint has_newline (s : text) : bool :=
  match s with
  | [] => false
  | a :: t => ascii_eqb a nl || has_newline t
  end.

Definition import_line_here (s : text) : bool :=
  startswith (raw "import ") s &&
  match skipn 7 s with
  | a :: t => negb (ascii_eqb a nl) && has_newline t
  | [] => false
  end.

Fixpoint has_import_line (s : text) : bool :=
  import_line_here s ||
  match s with
  | [] => false
  | _ :: t => has_import_line t
  end.


(** ** The root fixes *)

(** The four properties as [add_root_properties] writes them. *)
Definition root_properties : text :=
  py "\n              direction: null,\n              format: '',\n              indent: 0,\n              version: 1,\n            ".

(** A document with two roots that lack the properties. *)
Definition two_roots : text :=
  py "a = { root: {\n children: [\n {\n type: 'paragraph',\n version: 1,\n children: [x],\n },\n ],\n }\n}\n" ++
  py "b = { root: { children: [{type: 'paragraph', version: 1, children: [y], }, ], } }\n".




(** ** Running the fixes twice *)




(** ** The scanner of the specification

    The scripts have no delimiter scanner: they delimit with character
    classes.  For comparison, [match_delimiter_spec] is the scanner as
    the specification words it: one scan from the opening delimiter with
    a depth counter, which skips what lies inside string literals (the
    flag is toggled by an unescaped quote) and fails when the text ends
    before the depth is back to zero. *)







(** A root whose children hold no nested list. *)
Definition flat_root : text :=
  py "x = { content: { root: { type: 'root', children: [a, 'b'], } } }".

(** ** Draft insertion and draft removal *)

(** A users-collection create call: the white space [ws1] and [ws2]
    between its parts, the [body] of the data object, and the [tail]
    that follows the data object. *)
Definition users_call (ws1 ws2 body tail : text) : text :=
  raw "await payload.create({" ++ ws1 ++ raw "collection: 'users'," ++ ws2 ++
  raw "data: {" ++ body ++ raw "}," ++ tail.

(** No closing brace in the body. *)
Definition no_brace (body : text) : bool :=
  forallb (fun a => negb (ascii_eqb a "}")) body.

(** A users call with four spaces before its closing brace. *)
Definition indented_call : text :=
  py "await payload.create({\n      collection: 'users',\n      data: {\n        email: 'a@b.c',\n      },\n    })".

(** ** The user fields *)

(** The fields of a test user: the word [w] in the address, and the
    white space before [password] and before [roles]. *)
Definition test_user_fields (w ws1 ws2 : text) : text :=
  raw "email: `test-" ++ w ++ raw "-${Date.now()}@example.com`," ++ ws1 ++
  raw "password: 'test123'," ++ ws2 ++ raw "roles: ['user'],".



(** ** Rewriting at sites *)

(** [rewrites P s s']: [s'] is [s] with some pieces [w], one after the
    other and without overlap, replaced by pieces [w'] with [P w w'];
    every other character stays where it is. *)
Inductive rewrites (P : text -> text -> Prop) : text -> text -> Prop :=
| rewrites_rest s : rewrites P s s
| rewrites_site pre w w' s s' :
    P w w' -> rewrites P s s' -> rewrites P (pre ++ w ++ s) (pre ++ w' ++ s').

(** The characters of a text that are not white space. *)
Definition nonblank (s : text) : text :=
  List.filter (fun a => negb (is_space a)) s.

(** [inserted_between ins w w']: [w] is two texts around a run of white
    space, and [w'] has [ins] in place of the run. *)
Definition inserted_between (ins : text) (w w' : text) : Prop :=
  exists g1 ws g2,
    w = g1 ++ ws ++ g2 /\ forallb is_space ws = true /\ w' = g1 ++ ins ++ g2.

(** ** The run of [fix-test-files.py] *)

(** The names under which the four fixes are recorded, in the order of
    [process_file]. *)
Definition fix_names : list text :=
  [ raw "Added Lexical helper function"; raw "Fixed user creation";
    raw "Fixed root structures"; raw "Fixed Lexical content structures" ].

(** [mark label c' c]: the name of a fix that made [c'] of [c], when the
    two differ. *)
Definition mark (label : text) (c' c : text) : list text :=
  if text_eqb c' c then [] else [label].

(** [records label f g]: the fix [f] computes the text [g content]
    whatever the state, leaves the world alone, and appends [label] to
    [fixes_applied] exactly when the text has changed. *)
Definition records (label : text) (f : text -> Consolidated.M text) (g : text -> text)
    : Prop :=
  forall content st,
    f content st =
    (g content,
     Consolidated.mkState
       (Consolidated.fixes_applied st ++ mark label (g content) content)
       (Consolidated.world st)).

(** The files that [main] goes through: those that [glob] finds for
    [--pattern] when it is given and not empty, else the positional
    files, else the default list. *)
Definition files_to_process (glob : World -> string -> list string)
    (args : Consolidated.Namespace) (w : World) : list string :=
  match Consolidated.ns_pattern args with
  | None | Some EmptyString =>
      match Consolidated.ns_files args with
      | [] => Consolidated.default_files
      | l => l
      end
  | Some pattern => glob w pattern
  end.

(** ** The loops over a list of files *)


(** [inserted_before ins tail w w']: [w] ends with [tail], and [w'] has
    [ins] put before that [tail]. *)
Definition inserted_before (ins tail : text) (w w' : text) : Prop :=
  exists g, w = g ++ tail /\ w' = g ++ ins ++ tail.


(** ** Sequences of patterns *)



(** ** The fields of the other users *)

(** The fields of a user whose address starts with [another-]. *)
Definition another_user_fields (w ws1 ws2 : text) : text :=
  raw "email: `another-" ++ w ++ raw "-${Date.now()}@example.com`," ++ ws1 ++
  raw "password: 'test123'," ++ ws2 ++ raw "roles: ['user'],".

(** [subseq l k]: the characters of [l] are in [k], in the same order. *)
Fixpoint subseq (l k : text) : bool :=
  match l, k with
  | [], _ => true
  | _ :: _, [] => false
  | a :: l', b :: k' => if ascii_eqb a b then subseq l' k' else subseq l k'
  end.

(** * Properties *)

(** ** Text operations *)

Lemma ascii_eqb_refl (a : ascii) : ascii_eqb a a = true.
Proof. apply Ascii.eqb_refl. Qed.

Lemma ascii_eqb_eq (a b : ascii) : ascii_eqb a b = true <-> a = b.
Proof. apply Ascii.eqb_eq. Qed.

Lemma text_eqb_eq (s t : text) : text_eqb s t = true <-> s = t.
Proof.
  revert t; induction s as [|a s IH]; intros [|b t]; simpl; split;
    try congruence; try reflexivity.
  - intros H. apply andb_true_iff in H as [Hab Hst].
    apply ascii_eqb_eq in Hab. apply IH in Hst. congruence.
  - intros H. injection H as -> ->.
    rewrite ascii_eqb_refl. simpl. apply IH. reflexivity.
Qed.

Lemma text_eqb_refl (s : text) : text_eqb s s = true.
Proof. apply text_eqb_eq. reflexivity. Qed.

Lemma text_eqb_neq (s t : text) : text_eqb s t = false <-> s <> t.
Proof.
  split.
  - intros H E. apply text_eqb_eq in E. congruence.
  - intros H. destruct (text_eqb s t) eqn:E; [|reflexivity].
    apply text_eqb_eq in E. contradiction.
Qed.

Lemma startswith_app (p s : text) : startswith p (p ++ s) = true.
Proof.
  induction p as [|a p IH]; simpl; [reflexivity|].
  rewrite ascii_eqb_refl. exact IH.
Qed.

Lemma startswith_prefix (p s : text) :
  startswith p s = true <-> exists t, s = p ++ t.
Proof.
  split.
  - revert s; induction p as [|a p IH]; intros s H; simpl in *.
    + exists s. reflexivity.
    + destruct s as [|b s]; [discriminate|].
      apply andb_true_iff in H as [Hab Hps].
      apply ascii_eqb_eq in Hab. subst b.
      destruct (IH _ Hps) as [t ->]. exists t. reflexivity.
  - intros [t ->]. apply startswith_app.
Qed.

(** [needle in s] holds exactly when [s] splits around the needle. *)
Lemma contains_split (needle s : text) :
  contains needle s = true <-> exists u v, s = u ++ needle ++ v.
Proof.
  split.
  - induction s as [|a s IH]; simpl; intros H.
    + rewrite orb_false_r in H. apply startswith_prefix in H as [t Ht].
      exists [], t. exact Ht.
    + apply orb_true_iff in H as [H|H].
      * apply startswith_prefix in H as [t Ht]. exists [], t. exact Ht.
      * destruct (IH H) as (u & v & ->). exists (a :: u), v. reflexivity.
  - intros (u & v & ->). induction u as [|a u IH].
    + pose proof (startswith_app needle v) as Hs. simpl app.
      destruct (needle ++ v); simpl; rewrite Hs; reflexivity.
    + simpl. simpl in IH. rewrite IH. apply orb_true_r.
Qed.






(** ** Soundness of the matcher *)

Lemma firstn_exact (a b : text) : firstn (length a) (a ++ b) = a.
Proof. induction a as [|x a IH]; simpl; [destruct b; reflexivity | rewrite IH; reflexivity]. Qed.

Lemma skipn_exact (a b : text) : skipn (length a) (a ++ b) = b.
Proof. induction a as [|x a IH]; simpl; [reflexivity | exact IH]. Qed.

Lemma firstn_length_app (w s' : text) :
  firstn (length (w ++ s') - length s') (w ++ s') = w.
Proof.
  rewrite length_app, Nat.add_sub.
  rewrite firstn_app, Nat.sub_diag, firstn_all. simpl. apply app_nil_r.
Qed.

Section Soundness.
Context {A : Type}.

Lemma star_loop_sound (r1 : regex) (g : greed) (k : text -> caps -> option A) (x : A)
    (IH : forall s c k', mt r1 s c k' = Some x ->
          exists w s' c', s = w ++ s' /\ den r1 w c c' /\ k' s' c' = Some x) :
  forall n s c, star_loop (mt r1) k g n s c = Some x ->
    exists w s' c', s = w ++ s' /\ star_den (den r1) w c c' /\ k s' c' = Some x.
Proof.
  induction n as [|n IHn]; intros s c H; simpl in H.
  - exists [], s, c. repeat split; [constructor | exact H].
  - assert (Hk : k s c = Some x ->
      exists w s' c', s = w ++ s' /\ star_den (den r1) w c c' /\ k s' c' = Some x).
    { intros Hk. exists [], s, c. repeat split; [constructor | exact Hk]. }
    assert (Hm : mt r1 s c (fun s' c' =>
               if length s' <? length s then star_loop (mt r1) k g n s' c' else None)
               = Some x ->
      exists w s' c', s = w ++ s' /\ star_den (den r1) w c c' /\ k s' c' = Some x).
    { intros Hm. apply IH in Hm as (w1 & s1 & c1 & -> & Hd & Hrest).
      destruct (length s1 <? length (w1 ++ s1)); [|discriminate].
      apply IHn in Hrest as (w2 & s2 & c2 & -> & Hs & Hk2).
      exists (w1 ++ w2), s2, c2. rewrite <- app_assoc. repeat split.
      - econstructor; eassumption.
      - exact Hk2. }
    destruct g.
    + destruct (mt r1 s c _) eqn:E.
      * injection H as ->. apply Hm. reflexivity.
      * apply Hk. exact H.
    + destruct (k s c) eqn:E.
      * injection H as ->. apply Hk. reflexivity.
      * apply Hm. exact H.
Qed.

(** Soundness of the matcher. *)
Lemma mt_sound (r : regex) :
  forall s c (k : text -> caps -> option A) (x : A),
    mt r s c k = Some x ->
    exists w s' c', s = w ++ s' /\ den r w c c' /\ k s' c' = Some x.
Proof.
  induction r as [|a|neg l|r1 IH1 r2 IH2|r1 IH1|g r1 IH1|i r1 IH1];
    intros s c k x H; simpl in H.
  - exists [], s, c. simpl. auto.
  - destruct s as [|b s]; [discriminate|].
    destruct (ascii_eqb a b) eqn:E; [|discriminate].
    apply ascii_eqb_eq in E. subst b.
    exists [a], s, c. simpl. auto.
  - destruct s as [|b s]; [discriminate|].
    destruct (cmatch neg l b) eqn:E; [|discriminate].
    exists [b], s, c. simpl. split; [reflexivity|]. split; [|exact H].
    exists b. auto.
  - apply IH1 in H as (w1 & s1 & c1 & -> & Hd1 & H).
    apply IH2 in H as (w2 & s2 & c2 & -> & Hd2 & H).
    exists (w1 ++ w2), s2, c2. rewrite <- app_assoc. simpl. eauto 10.
  - destruct (mt r1 s c k) eqn:E.
    + injection H as ->. apply IH1 in E as (w & s' & c' & -> & Hd & Hk).
      exists w, s', c'. simpl. auto.
    + exists [], s, c. simpl. auto.
  - eapply star_loop_sound in H; [exact H|].
    intros. apply IH1. assumption.
  - apply IH1 in H as (w & s' & c' & -> & Hd & Hk).
    rewrite firstn_length_app in Hk.
    exists w, s', ((i, w) :: c'). simpl. eauto.
Qed.
End Soundness.

Lemma match_here_sound (r : regex) (s : text) (adv : bool) (s' : text) (c : caps) :
  match_here r s adv = Some (s', c) ->
  exists w, s = w ++ s' /\ den r w [] c /\ (adv = true -> w <> []).
Proof.
  unfold match_here. intros H.
  apply mt_sound in H as (w & s1 & c1 & -> & Hd & Hk).
  destruct (adv && (length s1 =? length (w ++ s1))) eqn:E; [discriminate|].
  injection Hk as <- <-. exists w. repeat split; [exact Hd|].
  intros -> ->. simpl in E. rewrite Nat.eqb_refl in E. discriminate.
Qed.

(** A match found by the scanner is a piece [w] of the text, matched by
    the pattern, at the offsets the match object reports. *)
Lemma scan_sound (r : regex) :
  forall s pos adv m,
    scan r pos s adv = Some m ->
    exists pre w post,
      s = pre ++ w ++ post /\
      m_start m = pos + length pre /\
      m_end m = m_start m + length w /\
      group0 m = w /\
      den r w [] (m_caps m).
Proof.
  induction s as [|a s IH]; intros pos adv m H.
  - unfold scan in H.
    destruct (match_here r [] adv) as [[s' c]|] eqn:E; [|discriminate].
    apply match_here_sound in E as (w & Hs & Hd & _).
    symmetry in Hs. apply app_eq_nil in Hs as [-> ->].
    injection H as <-. exists [], [], []. simpl.
    repeat split; try lia. exact Hd.
  - cbn [scan] in H.
    destruct (match_here r (a :: s) adv) as [[s' c]|] eqn:E.
    + apply match_here_sound in E as (w & Hs & Hd & _).
      injection H as <-. exists [], w, s'. cbn [m_start m_end group0 m_caps].
      change (S (length s)) with (length (a :: s)).
      rewrite Hs, firstn_length_app, length_app, Nat.add_sub.
      simpl. repeat split; try lia. exact Hd.
    + apply IH in H as (pre & w & post & -> & Hst & Hen & Hg & Hd).
      exists (a :: pre), w, post. simpl. repeat split; try assumption; lia.
Qed.

Lemma re_search_sound (r : regex) (s : text) (m : Match) :
  re_search r s = Some m ->
  exists pre w post,
    s = pre ++ w ++ post /\ m_start m = length pre /\
    m_end m = length pre + length w /\ group0 m = w /\ den r w [] (m_caps m).
Proof.
  intros H. apply scan_sound in H as (pre & w & post & Hs & Hst & Hen & Hg & Hd).
  exists pre, w, post. simpl in Hst. repeat split; try assumption; lia.
Qed.

(** A repeated character class matches a run of characters of the class
    and captures nothing. *)
Lemma star_cls_den (neg : bool) (l : list citem) (w : text) (c c' : caps) :
  star_den (den (Cls neg l)) w c c' ->
  c' = c /\ Forall (fun a => cmatch neg l a = true) w.
Proof.
  induction 1 as [c|w1 w2 c c1 c2 H1 H2 IH].
  - split; [reflexivity | constructor].
  - destruct H1 as (a & -> & Ha & ->). destruct IH as [-> IH].
    split; [reflexivity|]. simpl. constructor; assumption.
Qed.

(** ** [re.sub] and [re.finditer] *)



(** The offsets of a match lie in the text, and group 0 is the slice
    between them. *)
Lemma scan_offsets (r : regex) (s : text) (pos : nat) (adv : bool) (m : Match) :
  scan r pos s adv = Some m ->
  pos <= m_start m /\ m_start m <= m_end m /\ m_end m <= pos + length s /\
  s = firstn (m_start m - pos) s ++ group0 m ++ skipn (m_end m - pos) s.
Proof.
  intros H. apply scan_sound in H as (pre & w & post & -> & Hst & Hen & Hg & _).
  rewrite !length_app. repeat split; try lia.
  replace (m_start m - pos) with (length pre + 0) by lia.
  replace (m_end m - pos) with (length pre + length w) by lia.
  rewrite firstn_app_2, skipn_app.
  replace (length pre + length w - length pre) with (length w + 0) by lia.
  rewrite skipn_all2 by lia. rewrite skipn_app.
  replace (length w + 0 - length w) with 0 by lia.
  rewrite skipn_all2 by lia. simpl. rewrite app_nil_r, Hg. reflexivity.
Qed.



(** Without a match the text is returned as it is. *)
Lemma re_sub_no_match (r : regex) (repl : Match -> text) (s : text) :
  re_search r s = None -> re_sub r repl s = s.
Proof.
  unfold re_search, re_sub. intros H.
  destruct (2 * length s + 2); simpl; [reflexivity|]. rewrite H. reflexivity.
Qed.

(** Unfolding [den] on a concrete pattern. *)
Ltac den_split :=
  repeat match goal with
         | H : exists _, _ |- _ => destruct H
         | H : _ /\ _ |- _ => destruct H
         end.

(** ** The helper injection *)

Lemma cls_dot_run (w : text) :
  Forall (fun a => cmatch true [ILit nl] a = true) w -> ~ In nl w.
Proof.
  induction 1 as [|a w Ha _ IH]; simpl; [tauto|].
  intros [Heq|H]; [subst a|tauto].
  vm_compute in Ha. discriminate.
Qed.

Lemma import_pattern_shape :
  Consolidated.import_pattern =
  Seq (Seq (Grp 1 import_line_re) (Star Greedy (Grp 1 import_line_re))) Eps.
Proof. reflexivity. Qed.

Lemma import_line_den (w : text) (c c' : caps) :
  den import_line_re w c c' -> import_line w.
Proof.
  intros H. unfold import_line_re in H. cbn [den] in H. den_split. subst.
  match goal with H : star_den _ _ _ _ |- _ => apply star_cls_den in H as [_ Hrun] end.
  match goal with
  | Ha : cmatch true _ ?a = true |- import_line (_ ++ _ ++ _ ++ _ ++ _ ++ _ ++ _ ++ ([?a] ++ ?x) ++ _) =>
      exists (a :: x)
  end.
  split; [discriminate|]. split.
  - apply cls_dot_run. constructor; assumption.
  - reflexivity.
Qed.

Lemma import_star_den (w : text) (c c' : caps) :
  star_den (den (Grp 1 import_line_re)) w c c' ->
  exists lines, Forall import_line lines /\ w = concat lines.
Proof.
  induction 1 as [c|w1 w2 c c1 c2 H1 H2 IH].
  - exists []. split; [constructor | reflexivity].
  - destruct IH as (lines & Hl & ->).
    destruct H1 as (c0 & H1 & _). apply import_line_den in H1.
    exists (w1 :: lines). split; [constructor; assumption | reflexivity].
Qed.

(** What the import pattern matches is a block of import lines. *)
Lemma import_pattern_den (w : text) (c c' : caps) :
  den Consolidated.import_pattern w c c' -> import_block w.
Proof.
  rewrite import_pattern_shape. intros H.
  destruct H as (w1 & w2 & c1 & -> & H & [-> ->]).
  destruct H as (u & v & c2 & -> & Hu & Hv).
  destruct Hu as (c0 & Hu & _). apply import_line_den in Hu.
  apply import_star_den in Hv as (lines & Hl & ->).
  exists (u :: lines). split; [discriminate|]. split.
  - constructor; assumption.
  - simpl. rewrite app_nil_r. reflexivity.
Qed.

Lemma has_newline_app (x y : text) : has_newline (x ++ nl :: y) = true.
Proof.
  induction x as [|a x IH]; simpl; [reflexivity|].
  rewrite IH. apply orb_true_r.
Qed.

Lemma has_import_line_app (u v : text) :
  has_import_line v = true -> has_import_line (u ++ v) = true.
Proof.
  intros H. induction u as [|a u IH]; [exact H|].
  simpl. simpl in IH. rewrite IH. apply orb_true_r.
Qed.

Lemma import_line_here_ok (l post : text) :
  import_line l -> import_line_here (l ++ post) = true.
Proof.
  intros (x & Hx & Hnl & ->). destruct x as [|a x]; [contradiction|].
  unfold import_line_here. rewrite <- app_assoc, startswith_app.
  change 7 with (length (raw "import ")). rewrite skipn_exact.
  rewrite <- app_assoc. cbn [app andb]. rewrite has_newline_app.
  destruct (ascii_eqb a nl) eqn:E; [|reflexivity].
  apply ascii_eqb_eq in E. subst. exfalso. apply Hnl. left. reflexivity.
Qed.

Lemma has_import_line_here (s : text) :
  import_line_here s = true -> has_import_line s = true.
Proof. intros H. destruct s; cbn [has_import_line]; rewrite H; reflexivity. Qed.

(** A text without an import line has no match of the import pattern. *)
Lemma no_import_no_match (content : text) :
  has_import_line content = false ->
  re_search Consolidated.import_pattern content = None.
Proof.
  intros H. destruct (re_search _ content) as [m|] eqn:E; [|reflexivity].
  apply re_search_sound in E as (pre & w & post & -> & _ & _ & _ & Hd).
  apply import_pattern_den in Hd as (lines & Hne & Hl & ->).
  destruct lines as [|l lines]; [contradiction|].
  inversion Hl as [|? ? Hl1 _]; subst.
  rewrite has_import_line_app in H; [discriminate|].
  apply has_import_line_here. simpl. rewrite <- app_assoc.
  apply import_line_here_ok. exact Hl1.
Qed.










(** C10.  A document that does not hold the name [createLexicalContent]
    and has no import line is returned unchanged by the helper
    injection, in [fix-test-files.py] (where no fix is recorded either)
    and in [fix_all_test_content.py]. *)
Theorem C10_no_import_unchanged (content : text) (st : Consolidated.State) :
  contains (raw "createLexicalContent") content = false ->
  has_import_line content = false ->
  Consolidated.add_lexical_helper content st = (content, st)
  /\ AllTestContent.insert_helper content = content.
Proof.
  intros Hc Hi. apply no_import_no_match in Hi.
  unfold Consolidated.add_lexical_helper, AllTestContent.insert_helper.
  change AllTestContent.import_pattern with Consolidated.import_pattern.
  rewrite Hc, Hi. split; reflexivity.
Qed.

(** C10 at a document without the name and without an import line. *)
Lemma C10_witness :
  Consolidated.add_lexical_helper (py "describe('x', () => {})\n")
    (Consolidated.mkState [] (mkWorld ∅ [] []))
  = (py "describe('x', () => {})\n", Consolidated.mkState [] (mkWorld ∅ [] []))
  /\ AllTestContent.insert_helper (py "describe('x', () => {})\n")
     = py "describe('x', () => {})\n".
Proof.
  apply (C10_no_import_unchanged (py "describe('x', () => {})\n")); vm_compute; reflexivity.
Defined.

(** ** Rule selection in [main] *)

Lemma check_choices_cons (v : text) (values : list text) :
  Consolidated.check_choices (v :: values) =
  if existsb (text_eqb v) Consolidated.choices then Consolidated.check_choices values
  else Some (Consolidated.InvalidChoice v).
Proof. reflexivity. Qed.

Lemma check_choices_unknown (values : list text) :
  existsb (fun v => negb (existsb (text_eqb v) Consolidated.choices)) values = true ->
  exists v, In v values /\ existsb (text_eqb v) Consolidated.choices = false /\
            Consolidated.check_choices values = Some (Consolidated.InvalidChoice v).
Proof.
  induction values as [|v values IH]; [discriminate|].
  rewrite check_choices_cons. cbn [existsb].
  destruct (existsb (text_eqb v) Consolidated.choices) eqn:E.
  - cbn [negb orb]. intros H. destruct (IH H) as (u & Hin & Hu & Hc).
    exists u. split; [right; exact Hin | auto].
  - intros _. exists v. split; [left; reflexivity | auto].
Qed.

(** C8.  When a value given to [--fix-types] is not one of the four
    rule names, [main] ends at once with the error of [argparse] that
    names such a value, and the world is as before: no file is read or
    written, nothing is printed, no rule is applied. *)
Theorem C8_unknown_rule_is_fatal
    (glob : World -> string -> list string)
    (argv : Consolidated.Namespace) (values : list text) (w : World) :
  Consolidated.ns_fix_types argv = Some values ->
  existsb (fun v => negb (existsb (text_eqb v) Consolidated.choices)) values = true ->
  exists v, In v values /\ ~ In v Consolidated.choices /\
    Consolidated.main glob argv w
    = (Consolidated.SystemExit2 (Consolidated.InvalidChoice v), w).
Proof.
  intros Hft Hbad. apply check_choices_unknown in Hbad as (v & Hin & Hv & Hc).
  exists v. split; [exact Hin|]. split.
  - intros Hch. assert (existsb (text_eqb v) Consolidated.choices = true); [|congruence].
    apply existsb_exists. exists v. split; [exact Hch | apply text_eqb_refl].
  - unfold Consolidated.main, Consolidated.parse_args. rewrite Hft, Hc. reflexivity.
Qed.

(** C8 at a command line that asks for a rule that does not exist. *)
Lemma C8_witness :
  exists v,
    In v [raw "root-structures"; raw "rename-fields"] /\ ~ In v Consolidated.choices /\
    Consolidated.main (fun _ _ => [])
      (Consolidated.mkNamespace ["tests/int/blogs.int.spec.ts"%string]
         (Some [raw "root-structures"; raw "rename-fields"]) None)
      (mkWorld {[ "tests/int/blogs.int.spec.ts"%string := py "const x = 1\n" ]} [] [])
    = (Consolidated.SystemExit2 (Consolidated.InvalidChoice v),
       mkWorld {[ "tests/int/blogs.int.spec.ts"%string := py "const x = 1\n" ]} [] []).
Proof.
  apply (C8_unknown_rule_is_fatal (fun _ _ => [])
           (Consolidated.mkNamespace ["tests/int/blogs.int.spec.ts"%string]
              (Some [raw "root-structures"; raw "rename-fields"]) None)
           [raw "root-structures"; raw "rename-fields"]); reflexivity.
Defined.

(** ** Writing back *)

(** No fix touches the world: only [fixes_applied] changes. *)
Lemma apply_fixes_world (fix_types : option (list text)) (content : text)
    (st : Consolidated.State) :
  Consolidated.world (snd (Consolidated.apply_fixes fix_types content st))
  = Consolidated.world st.
Proof.
  unfold Consolidated.apply_fixes, Consolidated.bind, Consolidated.when,
    Consolidated.add_lexical_helper, Consolidated.fix_user_creation,
    Consolidated.fix_root_structures, Consolidated.fix_lexical_content,
    Consolidated.bind, Consolidated.ret, Consolidated.append_fix.
  repeat match goal with
         | |- context [if ?b then _ else _] => destruct b
         | |- context [match ?o with Some _ => _ | None => _ end] => destruct o
         end; reflexivity.
Qed.

(** [process_file] on an existing file, in one equation. *)
Lemma process_file_eq (filepath : string) (fix_types : option (list text))
    (st : Consolidated.State) (content : text) :
  files (Consolidated.world st) !! filepath = Some content ->
  Consolidated.process_file filepath fix_types st =
  let r := Consolidated.apply_fixes fix_types content
             (Consolidated.mkState [] (Consolidated.world st)) in
  if negb (text_eqb (fst r) content) then
    (true, Consolidated.mkState (Consolidated.fixes_applied (snd r))
             (print (raw "FIXED: " ++ raw filepath ++ raw " - " ++
                     join (raw ", ") (Consolidated.fixes_applied (snd r)))
                (write_file filepath (fst r) (Consolidated.world (snd r)))))
  else
    (false, Consolidated.mkState (Consolidated.fixes_applied (snd r))
              (print (raw "NO CHANGES: " ++ raw filepath) (Consolidated.world (snd r)))).
Proof.
  intros Hf. unfold Consolidated.process_file, Consolidated.bind,
    Consolidated.ask_world, Consolidated.reset_fixes, exists_file, read_file.
  cbv beta zeta iota. cbn [Consolidated.world Consolidated.fixes_applied].
  rewrite !Hf. cbv beta zeta iota.
  cbn [negb Consolidated.world Consolidated.fixes_applied]. rewrite ?Hf.
  destruct (Consolidated.apply_fixes fix_types content _) as [content' st1].
  cbn [fst snd]. destruct (negb (text_eqb content' content)); reflexivity.
Qed.

(** [process_file] of [fix-test-files.py] writes only a changed text:
    when the fixes leave the content as it was, the log of writes and
    the files are as before. *)
Lemma process_file_guard (filepath : string) (fix_types : option (list text))
    (st : Consolidated.State) (content : text) :
  files (Consolidated.world st) !! filepath = Some content ->
  fst (Consolidated.apply_fixes fix_types content
         (Consolidated.mkState [] (Consolidated.world st))) = content ->
  written (Consolidated.world (snd (Consolidated.process_file filepath fix_types st)))
    = written (Consolidated.world st)
  /\ files (Consolidated.world (snd (Consolidated.process_file filepath fix_types st)))
    = files (Consolidated.world st)
  /\ fst (Consolidated.process_file filepath fix_types st) = false.
Proof.
  intros Hf Hsame. rewrite (process_file_eq _ _ _ _ Hf). cbv zeta.
  rewrite Hsame, text_eqb_refl. cbn [negb fst snd Consolidated.world].
  rewrite apply_fixes_world. cbn. auto.
Qed.

(** C7 fails in [fix_test_files.py] and in [fix_tests_final.py]: a file
    on which the substitution changes nothing is written back all the
    same (and reported as fixed), where [process_file] of
    [fix-test-files.py] leaves it alone. *)
Theorem C7_unchanged_file_is_written :
  let path := "tests/int/blogs.int.spec.ts"%string in
  let doc := py "const x = 1\n" in
  let w := mkWorld {[ path := doc ]} [] [] in
  FixTestFiles.fix_text doc = doc
  /\ written (FixTestFiles.run w) = [(path, doc)]
  /\ TestsFinal.fix_text [raw "Content"] doc = doc
  /\ (written <$> TestsFinal.fix_file path [raw "Content"] w) = Some [(path, doc)]
  /\ written (Consolidated.world
                (snd (Consolidated.process_file path None (Consolidated.mkState [] w)))) = [].
Proof. vm_compute. repeat split. Qed.

(** ** Two sites of one rule *)


Lemma den_group_free (r : regex) :
  group_free r = true -> forall w c c', den r w c c' -> c' = c.
Proof.
  induction r as [|a|neg l|r1 IH1 r2 IH2|r1 IH1|g r1 IH1|i r1 IH1];
    simpl; intros Hg w c c' H; try discriminate.
  - destruct H as [_ ->]. reflexivity.
  - destruct H as [_ ->]. reflexivity.
  - destruct H as (a & _ & _ & ->). reflexivity.
  - apply andb_true_iff in Hg as [Hg1 Hg2].
    destruct H as (w1 & w2 & c1 & _ & H1 & H2).
    apply (IH1 Hg1) in H1. apply (IH2 Hg2) in H2. congruence.
  - destruct H as [[_ ->]|H]; [reflexivity | exact (IH1 Hg _ _ _ H)].
  - induction H as [c|w1 w2 c c1 c2 H1 H2 IH]; [reflexivity|].
    apply (IH1 Hg) in H1. congruence.
Qed.

(** The patterns of the root fixes are two groups around white space:
    what they match is the first group, a run of white space, and the
    second group. *)
Lemma den_two_groups (r1 r2 : regex) (w : text) (c : caps) :
  group_free r2 = true ->
  den (Seq (Grp 1 r1) (Seq (Star Greedy (Cls false [ISpace])) (Seq (Grp 2 r2) Eps)))
      w [] c ->
  exists g1 ws g2,
    w = g1 ++ ws ++ g2 /\ Forall (fun a => is_space a = true) ws /\
    cap_lookup 1 c = Some g1 /\ cap_lookup 2 c = Some g2.
Proof.
  intros Hfree H. cbn [den] in H.
  destruct H as (g1 & w' & c1 & -> & (c0 & _ & ->) & H).
  destruct H as (ws & w'' & c2 & -> & Hws & H).
  destruct H as (g2 & e & c3 & -> & (c4 & H2 & ->) & -> & ->).
  apply star_cls_den in Hws as [-> Hws].
  apply (den_group_free _ Hfree) in H2. subst c4.
  exists g1, ws, g2. rewrite app_nil_r. repeat split.
  induction Hws as [|a ws Ha _ IH]; constructor; [|exact IH].
  unfold cmatch in Ha. simpl in Ha. rewrite orb_false_r in Ha. exact Ha.
Qed.




(** ** The conformance test of [fix_content_block] *)





(** ** Running the fixes twice *)

Lemma no_match_sub (r : regex) (repl : Match -> text) (s : text) :
  no_match r s = true -> re_sub r repl s = s.
Proof.
  unfold no_match. intros H. apply re_sub_no_match.
  destruct (re_search r s); [discriminate | reflexivity].
Qed.





(** ** Delimiting a site *)




(** *** What the locator of [fix_content_block] matches *)

Lemma cls_not_run (c : ascii) (w : text) :
  Forall (fun a => cmatch true [ILit c] a = true) w -> ~ In c w.
Proof.
  induction 1 as [|a w Ha _ IH]; simpl; [tauto|].
  intros [Heq|H]; [subst a|tauto].
  unfold cmatch in Ha. simpl in Ha. rewrite ascii_eqb_refl in Ha. discriminate.
Qed.

Lemma block_pattern_den (w : text) (c : caps) :
  den Carefully.block_pattern w [] c ->
  exists ws x1 x2 body x3,
    w = raw "content: {" ++ ws ++ raw "root: {" ++ x1 ++ raw "type: 'root'," ++ x2 ++
        raw "children: [" ++ body ++ raw "]," ++ x3 ++ raw "}"
    /\ Forall (fun a => is_space a = true) ws
    /\ x1 <> [] /\ x2 <> [] /\ body <> []
    /\ ~ In "}"%char x1 /\ ~ In "}"%char x2 /\ ~ In "]"%char body /\ ~ In "}"%char x3.
Proof.
  intros H. unfold Carefully.block_pattern in H. cbn [den] in H. den_split. subst.
  repeat match goal with
         | H : star_den _ _ _ _ |- _ => apply star_cls_den in H as [? H]; subst
         end.
  eexists _, (_ :: _), (_ :: _), (_ :: _), _.
  split; [reflexivity|].
  split.
  { match goal with
    | H : Forall (fun a => cmatch false [ISpace] a = true) ?x |- Forall _ ?x =>
        induction H as [|a l Ha _ IH]; constructor; [|exact IH];
        unfold cmatch in Ha; simpl in Ha; rewrite orb_false_r in Ha; exact Ha
    end. }
  repeat (split; [discriminate|]).
  repeat split; apply cls_not_run; try (constructor; assumption); assumption.
Qed.




(** ** Following the matcher on a text of a known shape *)

Lemma fwd_eps (rest : text) (c : caps) : fwd Eps [] rest c c.
Proof. intros A k x H. exact H. Qed.

Lemma fwd_lit (l : text) (r : regex) (w rest : text) (c c' : caps) :
  fwd r w rest c c' -> fwd (lit_then l r) (l ++ w) rest c c'.
Proof.
  intros H. induction l as [|a l IH]; [exact H|].
  intros A k x Hk. simpl. rewrite ascii_eqb_refl. apply IH. exact Hk.
Qed.

Lemma star_loop_cls_run (A : Type) (neg : bool) (l : list citem)
    (k : text -> caps -> option A) (x : A) (rest : text) (c : caps) :
  stops neg l rest = true -> k rest c = Some x ->
  forall w n, forallb (cmatch neg l) w = true -> length w <= n ->
    star_loop (mt (Cls neg l)) k Greedy n (w ++ rest) c = Some x.
Proof.
  intros Hstop Hk. induction w as [|a w IH]; intros n Hw Hn.
  - simpl app. destruct n as [|n]; [exact Hk|].
    simpl. destruct rest as [|b rest]; [exact Hk|].
    simpl in Hstop. apply negb_true_iff in Hstop. rewrite Hstop. exact Hk.
  - simpl in Hw. apply andb_true_iff in Hw as [Ha Hw].
    destruct n as [|n]; [simpl in Hn; lia|].
    simpl. rewrite Ha.
    replace (length (w ++ rest) <? S (length (w ++ rest))) with true
      by (symmetry; apply Nat.ltb_lt; lia).
    rewrite IH; [reflexivity | exact Hw | simpl in Hn; lia].
Qed.

(** A greedy repeated class takes the whole run. *)
Lemma fwd_star_cls (neg : bool) (l : list citem) (w rest : text) (c : caps) :
  forallb (cmatch neg l) w = true -> stops neg l rest = true ->
  fwd (Star Greedy (Cls neg l)) w rest c c.
Proof.
  intros Hw Hstop A k x Hk. simpl.
  apply star_loop_cls_run; try assumption. rewrite length_app. lia.
Qed.

Lemma fwd_seq (r1 r2 : regex) (w1 w2 rest : text) (c c1 c2 : caps) :
  fwd r1 w1 (w2 ++ rest) c c1 -> fwd r2 w2 rest c1 c2 ->
  fwd (Seq r1 r2) (w1 ++ w2) rest c c2.
Proof.
  intros H1 H2 A k x Hk. simpl. rewrite <- app_assoc.
  apply H1. apply H2. exact Hk.
Qed.

Lemma fwd_plus_cls (neg : bool) (l : list citem) (w rest : text) (c : caps) :
  w <> [] -> forallb (cmatch neg l) w = true -> stops neg l rest = true ->
  fwd (Seq (Cls neg l) (Star Greedy (Cls neg l))) w rest c c.
Proof.
  intros Hne Hw Hstop. destruct w as [|a w]; [contradiction|].
  simpl in Hw. apply andb_true_iff in Hw as [Ha Hw].
  intros A k x Hk. cbn [mt app]. rewrite Ha.
  apply (fwd_star_cls neg l w rest c Hw Hstop). exact Hk.
Qed.

Lemma fwd_grp (i : nat) (r : regex) (w rest : text) (c c' : caps) :
  fwd r w rest c c' -> fwd (Grp i r) w rest c ((i, w) :: c').
Proof.
  intros H A k x Hk. simpl. apply H.
  rewrite firstn_length_app. exact Hk.
Qed.

(** From [fwd] to a match at the head of the text. *)
Lemma fwd_match_here (r : regex) (w rest : text) (c : caps) :
  fwd r w rest [] c -> match_here r (w ++ rest) false = Some (rest, c).
Proof. intros H. unfold match_here. apply H. reflexivity. Qed.

(** *** Literal prefixes *)

Lemma lit_prefix_fail (A : Type) (r : regex) :
  forall s c (k : text -> caps -> option A),
    startswith (lit_prefix r) s = false -> mt r s c k = None.
Proof.
  induction r as [|a|neg l|r1 IH1 r2 IH2|r1 IH1|g r1 IH1|i r1 IH1];
    intros s c k H; simpl in H; try discriminate.
  - destruct s as [|b s]; [reflexivity|]. simpl.
    rewrite andb_true_r in H. rewrite H. reflexivity.
  - destruct r1; try discriminate.
    + simpl. destruct s as [|b s]; [reflexivity|].
      simpl in H. destruct (ascii_eqb a b); [|reflexivity].
      apply IH2. exact H.
    + change (mt (Seq (Grp i r1) r2) s c k)
        with (mt (Grp i r1) s c (fun s' c' => mt r2 s' c' k)).
      apply IH1. exact H.
  - simpl. apply IH1. exact H.
Qed.

Lemma match_here_lit_fail (r : regex) (s : text) (adv : bool) :
  startswith (lit_prefix r) s = false -> match_here r s adv = None.
Proof. intros H. unfold match_here. apply lit_prefix_fail. exact H. Qed.

(** *** The loop of [re.sub] on a text of a known shape *)

Lemma scan_here (r : regex) (pos : nat) (s s' : text) (adv : bool) (c : caps) :
  match_here r s adv = Some (s', c) ->
  scan r pos s adv
  = Some (mkMatch pos (pos + (length s - length s')) (firstn (length s - length s') s) c).
Proof. intros H. destruct s; simpl; rewrite H; reflexivity. Qed.

(** A match at the head: it is replaced and the loop goes on behind it. *)
Lemma sub_loop_head (r : regex) (repl : Match -> text) (f pos : nat)
    (w rest : text) (c : caps) :
  fwd r w rest [] c -> w <> [] ->
  sub_loop (S f) r repl pos (w ++ rest) false
  = repl (mkMatch pos (pos + length w) w c) ++ sub_loop f r repl (pos + length w) rest false.
Proof.
  intros H Hne. apply fwd_match_here in H.
  cbn [sub_loop]. rewrite (scan_here _ pos _ _ _ _ H).
  cbn [m_start m_end]. rewrite firstn_length_app.
  replace (length (w ++ rest) - length rest) with (length w)
    by (rewrite length_app; lia).
  rewrite Nat.sub_diag. cbn [firstn app].
  replace (pos + length w - pos) with (length w) by lia.
  rewrite skipn_exact.
  replace (pos + length w =? pos) with false; [reflexivity|].
  symmetry. apply Nat.eqb_neq. destruct w; [contradiction | simpl; lia].
Qed.

(** No match at the head: the character is copied. *)
Lemma sub_loop_skip (r : regex) (repl : Match -> text) (f pos : nat)
    (a : ascii) (s : text) (adv : bool) :
  match_here r (a :: s) adv = None ->
  sub_loop (S f) r repl pos (a :: s) adv
  = a :: sub_loop (S f) r repl (S pos) s false.
Proof.
  intros H. cbn [sub_loop scan]. rewrite H.
  destruct (scan r (S pos) s false) as [m|] eqn:E; [|reflexivity].
  destruct (scan_offsets _ _ _ _ _ E) as (H1 & H2 & _).
  replace (m_start m - pos) with (S (m_start m - S pos)) by lia.
  replace (m_end m - pos) with (S (m_end m - S pos)) by lia.
  reflexivity.
Qed.

Lemma sub_loop_skip_run (r : regex) (repl : Match -> text) (f : nat) (s : text) :
  forall p pos,
    clear_run (lit_prefix r) p s = true ->
    sub_loop (S f) r repl pos (p ++ s) false
    = p ++ sub_loop (S f) r repl (pos + length p) s false.
Proof.
  induction p as [|a p IH]; intros pos H.
  - simpl. rewrite Nat.add_0_r. reflexivity.
  - simpl in H. apply andb_true_iff in H as [Ha Hp]. apply negb_true_iff in Ha.
    simpl app. rewrite sub_loop_skip by (apply match_here_lit_fail; exact Ha).
    rewrite (IH _ Hp). cbn [length app].
    replace (pos + S (length p)) with (S pos + length p) by lia. reflexivity.
Qed.

(** A run of characters other than the first character of the literal
    prefix is clear. *)
Lemma clear_run_other (a0 : ascii) (l p s : text) :
  forallb (fun a => negb (ascii_eqb a0 a)) p = true ->
  clear_run (a0 :: l) p s = true.
Proof.
  induction p as [|a p IH]; simpl; [reflexivity|].
  intros H. apply andb_true_iff in H as [Ha Hp].
  apply negb_true_iff in Ha. rewrite Ha. simpl. apply IH. exact Hp.
Qed.

Lemma forallb_impl (P Q : ascii -> bool) (w : text) :
  (forall a, P a = true -> Q a = true) ->
  forallb P w = true -> forallb Q w = true.
Proof.
  intros HPQ. induction w as [|a w IH]; simpl; [reflexivity|].
  intros H. apply andb_true_iff in H as [Ha Hw].
  rewrite (HPQ _ Ha), (IH Hw). reflexivity.
Qed.

Lemma space_other (a0 : ascii) (w : text) :
  is_space a0 = false -> forallb is_space w = true ->
  forallb (fun a => negb (ascii_eqb a0 a)) w = true.
Proof.
  intros H0. apply forallb_impl. intros a Ha.
  destruct (ascii_eqb a0 a) eqn:E; [|reflexivity].
  apply ascii_eqb_eq in E. subst. congruence.
Qed.

Lemma scan_none_pos (r : regex) :
  forall s pos pos' adv, scan r pos s adv = None -> scan r pos' s adv = None.
Proof.
  induction s as [|a s IH]; intros pos pos' adv H; simpl in *.
  - destruct (match_here r [] adv) as [[? ?]|]; [discriminate | reflexivity].
  - destruct (match_here r (a :: s) adv) as [[? ?]|]; [discriminate|].
    eapply IH. exact H.
Qed.

(** Without a match the loop returns what is left. *)
Lemma sub_loop_none (r : regex) (repl : Match -> text) (f pos : nat) (s : text) (adv : bool) :
  scan r 0 s adv = None -> sub_loop f r repl pos s adv = s.
Proof.
  intros H. destruct f; simpl; [reflexivity|].
  rewrite (scan_none_pos _ _ _ pos _ H). reflexivity.
Qed.

Lemma forallb_space_cls (w : text) :
  forallb is_space w = true -> forallb (cmatch false [ISpace]) w = true.
Proof.
  apply forallb_impl. intros a Ha. unfold cmatch. simpl. rewrite Ha. reflexivity.
Qed.

Lemma forallb_not_cls (c0 : ascii) (w : text) :
  forallb (fun a => negb (ascii_eqb a c0)) w = true ->
  forallb (cmatch true [ILit c0]) w = true.
Proof.
  apply forallb_impl. intros a Ha. unfold cmatch. simpl.
  apply negb_true_iff in Ha. rewrite Ha. reflexivity.
Qed.

Lemma forallb_word_cls (w : text) :
  forallb is_word w = true -> forallb (cmatch false [IWord]) w = true.
Proof.
  apply forallb_impl. intros a Ha. unfold cmatch. simpl. rewrite Ha. reflexivity.
Qed.

(** ** Draft insertion and draft removal *)

Ltac fwd_plus_space :=
  eapply fwd_seq;
  [apply fwd_plus_cls; [assumption | apply forallb_space_cls; assumption | reflexivity]|].

Ltac fwd_star_space :=
  eapply fwd_seq;
  [apply fwd_star_cls; [first [apply forallb_space_cls; assumption | reflexivity] | reflexivity]|].

Section UsersCall.
Variables ws1 ws2 body : text.
Hypothesis Hws1 : forallb is_space ws1 = true.
Hypothesis Nws1 : ws1 <> [].
Hypothesis Hws2 : forallb is_space ws2 = true.
Hypothesis Nws2 : ws2 <> [].
Hypothesis Hbody : no_brace body = true.
Hypothesis Nbody : body <> [].

(** The insertion pattern on a users call. *)
Lemma insertion_fwd (ws3 : text) :
  forallb is_space ws3 = true -> ws3 <> [] ->
  fwd RemainingErrors.pattern1 (users_call ws1 ws2 body (ws3 ++ raw "})")) [] []
    [(2, raw "})"); (1, users_call ws1 ws2 body [])].
Proof.
  intros Hws3 Nws3.
  replace (users_call ws1 ws2 body (ws3 ++ raw "})"))
    with (users_call ws1 ws2 body [] ++ ws3 ++ raw "})" ++ [])
    by (unfold users_call; rewrite <- !app_assoc; reflexivity).
  unfold RemainingErrors.pattern1.
  eapply fwd_seq.
  - apply fwd_grp. unfold users_call.
    apply (fwd_lit (raw "await payload.create({")).
    fwd_plus_space.
    apply (fwd_lit (raw "collection: 'users',")).
    fwd_plus_space.
    apply (fwd_lit (raw "data: {")).
    eapply fwd_seq;
      [apply fwd_plus_cls; [assumption | apply forallb_not_cls; exact Hbody | reflexivity]|].
    apply (fwd_lit (raw "},")).
    apply fwd_eps.
  - fwd_plus_space.
    eapply fwd_seq; [|apply fwd_eps].
    apply fwd_grp. apply (fwd_lit (raw "})") Eps []). apply fwd_eps.
Qed.

(** The draft insertion on a users call. *)
Lemma insertion_on_call (ws3 : text) :
  forallb is_space ws3 = true -> ws3 <> [] ->
  re_sub RemainingErrors.pattern1 RemainingErrors.add_draft
    (users_call ws1 ws2 body (ws3 ++ raw "})"))
  = users_call ws1 ws2 body (py "\n      draft: false,\n    " ++ raw "})").
Proof.
  intros Hws3 Nws3. unfold re_sub.
  replace (2 * length (users_call ws1 ws2 body (ws3 ++ raw "})")) + 2)
    with (S (2 * length (users_call ws1 ws2 body (ws3 ++ raw "})")) + 1)) by lia.
  rewrite <- (app_nil_r (users_call ws1 ws2 body (ws3 ++ raw "})"))) at 2.
  rewrite (sub_loop_head _ _ _ _ _ _ _ (insertion_fwd ws3 Hws3 Nws3))
    by (unfold users_call; discriminate).
  rewrite sub_loop_none by reflexivity.
  unfold RemainingErrors.add_draft, group. cbn [m_caps cap_lookup Nat.eqb fmt].
  unfold users_call. rewrite <- !app_assoc. reflexivity.
Qed.

(** The removal pattern on the part of the call it matches. *)
Lemma removal_fwd :
  fwd UserCreation.pattern
    ((raw "collection: 'users'," ++ ws2 ++ raw "data: {" ++ body ++ raw "},") ++
     py "\n      " ++ raw "draft: false," ++ py "\n    " ++ raw "}")
    (raw ")") []
    [(1, raw "collection: 'users'," ++ ws2 ++ raw "data: {" ++ body ++ raw "},")].
Proof.
  unfold UserCreation.pattern.
  eapply fwd_seq.
  - apply fwd_grp.
    replace (raw "collection: 'users'," ++ ws2 ++ raw "data: {" ++ body ++ raw "},")
      with (raw "collection: 'users'," ++ ws2 ++ raw "data: {" ++ body ++ raw "}," ++ [])
      by (rewrite app_nil_r; reflexivity).
    apply (fwd_lit (raw "collection: 'users',")).
    fwd_star_space.
    apply (fwd_lit (raw "data: {")).
    eapply fwd_seq;
      [apply fwd_plus_cls; [assumption | apply forallb_not_cls; exact Hbody | reflexivity]|].
    apply (fwd_lit (raw "},")).
    apply fwd_eps.
  - fwd_star_space.
    apply (fwd_lit (raw "draft: false,")).
    fwd_star_space.
    apply (fwd_lit (raw "}") Eps []). apply fwd_eps.
Qed.

(** The draft removal on a users call with a draft. *)
Lemma removal_on_call :
  UserCreation.remove_draft
    (users_call ws1 ws2 body (py "\n      draft: false,\n    " ++ raw "})"))
  = users_call ws1 ws2 body (py "\n      " ++ raw "})").
Proof.
  unfold UserCreation.remove_draft, re_sub.
  set (repl := expand UserCreation.replacement).
  replace (2 * length (users_call ws1 ws2 body (py "\n      draft: false,\n    " ++ raw "})")) + 2)
    with (S (2 * length (users_call ws1 ws2 body (py "\n      draft: false,\n    " ++ raw "})")) + 1))
    by lia.
  set (f := 2 * length (users_call ws1 ws2 body (py "\n      draft: false,\n    " ++ raw "})")) + 1).
  replace (users_call ws1 ws2 body (py "\n      draft: false,\n    " ++ raw "})"))
    with (raw "await payload.create({" ++ ws1 ++
          ((raw "collection: 'users'," ++ ws2 ++ raw "data: {" ++ body ++ raw "},") ++
           py "\n      " ++ raw "draft: false," ++ py "\n    " ++ raw "}") ++ raw ")")
    by (unfold users_call; rewrite <- !app_assoc; reflexivity).
  rewrite sub_loop_skip_run by reflexivity.
  rewrite sub_loop_skip_run
    by (apply clear_run_other, space_other; [reflexivity | exact Hws1]).
  rewrite (sub_loop_head _ _ _ _ _ _ _ removal_fwd) by discriminate.
  rewrite sub_loop_none by reflexivity.
  assert (Hr : forall a b g G,
             expand UserCreation.replacement (mkMatch a b g [(1, G)])
             = G ++ py "\n      }") by reflexivity.
  unfold repl. rewrite Hr.
  unfold users_call. rewrite <- !app_assoc. reflexivity.
Qed.

End UsersCall.

(** C9 (as amended).  On a users-collection create call, the insertion
    puts [draft: false,] in place of the white space before the closing
    [})], and the removal applied to the result leaves a newline and
    six spaces there: the original call comes back exactly when that is
    the white space it had. *)
Theorem C9_removal_after_insertion (ws1 ws2 ws3 body : text) :
  forallb is_space ws1 = true -> ws1 <> [] ->
  forallb is_space ws2 = true -> ws2 <> [] ->
  forallb is_space ws3 = true -> ws3 <> [] ->
  no_brace body = true -> body <> [] ->
  let call := users_call ws1 ws2 body (ws3 ++ raw "})") in
  re_sub RemainingErrors.pattern1 RemainingErrors.add_draft call
    = users_call ws1 ws2 body (py "\n      draft: false,\n    " ++ raw "})")
  /\ UserCreation.remove_draft (re_sub RemainingErrors.pattern1 RemainingErrors.add_draft call)
     = users_call ws1 ws2 body (py "\n      " ++ raw "})")
  /\ (UserCreation.remove_draft (re_sub RemainingErrors.pattern1 RemainingErrors.add_draft call)
      = call <-> ws3 = py "\n      ").
Proof.
  intros H1 N1 H2 N2 H3 N3 Hb Nb call. unfold call.
  rewrite (insertion_on_call ws1 ws2 body H1 N1 H2 N2 Hb Nb ws3 H3 N3).
  rewrite (removal_on_call ws1 ws2 body H1 H2 Hb Nb).
  split; [reflexivity|]. split; [reflexivity|].
  unfold users_call. split.
  - intros H. repeat apply app_inv_head in H.
    apply app_inv_tail in H. symmetry. exact H.
  - intros ->. reflexivity.
Qed.

(** C9 fails as stated: with four spaces before the closing [})], the
    removal after the insertion leaves six. *)
Lemma C9_counterexample :
  no_match RemainingErrors.pattern1 indented_call = false
  /\ UserCreation.remove_draft
       (re_sub RemainingErrors.pattern1 RemainingErrors.add_draft indented_call)
     <> indented_call
  /\ UserCreation.remove_draft
       (re_sub RemainingErrors.pattern1 RemainingErrors.add_draft indented_call)
     = py "await payload.create({\n      collection: 'users',\n      data: {\n        email: 'a@b.c',\n      },\n      })".
Proof.
  split; [vm_compute; reflexivity|].
  split; [vm_compute; discriminate | vm_compute; reflexivity].
Qed.

(** C9 at a call with a newline and six spaces before its closing brace. *)
Lemma C9_witness :
  let call := users_call (py "\n  ") (py "\n  ") (py "\n    email: 'a@b.c',\n  ")
                (py "\n      " ++ raw "})") in
  UserCreation.remove_draft (re_sub RemainingErrors.pattern1 RemainingErrors.add_draft call)
  = call.
Proof.
  apply (C9_removal_after_insertion (py "\n  ") (py "\n  ") (py "\n      ")
           (py "\n    email: 'a@b.c',\n  ")); try reflexivity; discriminate.
Defined.

(** ** [str.replace] on a text of a known shape *)

Lemma clear_run_app (l p1 p2 s : text) :
  clear_run l (p1 ++ p2) s = clear_run l p1 (p2 ++ s) && clear_run l p2 s.
Proof.
  induction p1 as [|a p1 IH]; simpl; [reflexivity|].
  rewrite IH, <- app_assoc, andb_assoc. reflexivity.
Qed.

Lemma partition_at_clear (old : text) :
  forall pre s, clear_run old pre (old ++ s) = true ->
    partition_at old (pre ++ old ++ s) = Some (pre, s).
Proof.
  induction pre as [|a pre IH]; intros s H.
  - simpl app. destruct (old ++ s) eqn:E.
    + simpl. destruct old; [|discriminate]. simpl in E. subst. reflexivity.
    + cbn [partition_at]. rewrite <- E, startswith_app, skipn_exact. reflexivity.
  - simpl in H. apply andb_true_iff in H as [Ha Hp]. apply negb_true_iff in Ha.
    simpl app. cbn [partition_at]. rewrite Ha, (IH _ Hp). reflexivity.
Qed.

Lemma replace_fuel_none (f : nat) (old new s : text) :
  partition_at old s = None -> replace_fuel f old new s = s.
Proof. intros H. destruct f; simpl; [reflexivity|]. rewrite H. reflexivity. Qed.

(** One occurrence, with none before it and none after it. *)
Lemma replace_one (old new pre post : text) :
  old <> [] ->
  clear_run old pre (old ++ post) = true ->
  partition_at old post = None ->
  replace old new (pre ++ old ++ post) = pre ++ new ++ post.
Proof.
  intros Hne Hc Hp. unfold replace. destruct old as [|a old]; [contradiction|].
  cbn [replace_fuel]. rewrite (partition_at_clear _ _ _ Hc).
  rewrite (replace_fuel_none _ _ _ _ Hp). reflexivity.
Qed.

Lemma startswith_in_run (P : ascii -> bool) (a : ascii) (s : text) :
  forall l w, run_blocks P a l = true -> forallb P w = true ->
    startswith l (w ++ a :: s) = false.
Proof.
  induction l as [|x l IH]; intros w Hl Hw; simpl in Hl; [discriminate|].
  apply andb_true_iff in Hl as [Hx Hl]. apply negb_true_iff in Hx.
  destruct w as [|b w]; simpl.
  - rewrite Hx. reflexivity.
  - simpl in Hw. apply andb_true_iff in Hw as [Hb Hw].
    destruct (ascii_eqb x b) eqn:E; [|reflexivity].
    apply ascii_eqb_eq in E. subst b. rewrite Hb in Hl.
    simpl. apply IH; assumption.
Qed.

Lemma clear_run_in_run (P : ascii -> bool) (a : ascii) (l s : text) :
  run_blocks P a l = true ->
  forall w, forallb P w = true -> clear_run l w (a :: s) = true.
Proof.
  intros Hl. induction w as [|b w IH]; intros Hw; [reflexivity|].
  pose proof (startswith_in_run P a s l (b :: w) Hl Hw) as Hs.
  cbn [app] in Hs. cbn [clear_run]. rewrite Hs.
  simpl in Hw. apply andb_true_iff in Hw as [_ Hw]. simpl. apply IH. exact Hw.
Qed.

(** ** The user fields *)

Section TestUser.
Variables w ws1 : text.
Hypothesis Hw : forallb is_word w = true.
Hypothesis Nw : w <> [].
Hypothesis Hws1 : forallb is_space ws1 = true.
Hypothesis Nws1 : ws1 <> [].


Lemma test_user_repl_fields (a b : nat) (c : caps) :
  Consolidated.test_user_repl (mkMatch a b (test_user_fields w ws1 (py "\n        ")) c)
  = raw "email: `test-" ++ w ++ raw "-${Date.now()}@example.com`," ++ ws1 ++
    py "firstName: 'Test',\n        lastName: 'User',\n        password: 'test123',\n        roles: ['user'],".
Proof.
  unfold Consolidated.test_user_repl. cbn [group0].
  replace (test_user_fields w ws1 (py "\n        "))
    with ((raw "email: `test-" ++ w ++ raw "-${Date.now()}@example.com`," ++ ws1 ++
           raw "password: 'test123'," ++ py "\n        ") ++ py "roles: ['user']," ++ [])
    by (unfold test_user_fields; rewrite <- !app_assoc; reflexivity).
  rewrite replace_one; [|discriminate| |reflexivity].
  2:{ rewrite !clear_run_app. repeat (apply andb_true_iff; split); try reflexivity.
      - apply (clear_run_in_run is_word); [reflexivity | exact Hw].
      - apply clear_run_other, space_other; [reflexivity | exact Hws1]. }
  replace ((raw "email: `test-" ++ w ++ raw "-${Date.now()}@example.com`," ++ ws1 ++
            raw "password: 'test123'," ++ py "\n        ") ++
           py "firstName: 'Test',\n        lastName: 'User',\n        password: 'test123',\n        roles: ['user']," ++ [])
    with ((raw "email: `test-" ++ w ++ raw "-${Date.now()}@example.com`," ++ ws1) ++
          py "password: 'test123',\n        firstName:" ++
          py " 'Test',\n        lastName: 'User',\n        password: 'test123',\n        roles: ['user'],")
    by (rewrite <- !app_assoc; reflexivity).
  rewrite replace_one; [|discriminate| |reflexivity].
  2:{ rewrite !clear_run_app. repeat (apply andb_true_iff; split); try reflexivity.
      - apply (clear_run_in_run is_word); [reflexivity | exact Hw].
      - apply clear_run_other, space_other; [reflexivity | exact Hws1]. }
  rewrite <- !app_assoc. reflexivity.
Qed.

End TestUser.

(** A text in which the literal prefix of the pattern starts nowhere
    has no match. *)
Lemma scan_clear_run (r : regex) (t : text) :
  scan r 0 t false = None ->
  forall p pos, clear_run (lit_prefix r) p t = true -> scan r pos (p ++ t) false = None.
Proof.
  intros Ht. induction p as [|a p IH]; intros pos H.
  - simpl. eapply scan_none_pos. exact Ht.
  - simpl in H. apply andb_true_iff in H as [Ha Hp]. apply negb_true_iff in Ha.
    simpl app. cbn [scan]. rewrite (match_here_lit_fail _ _ _ Ha). apply IH. exact Hp.
Qed.

Lemma re_sub_clear (r : regex) (repl : Match -> text) (s : text) :
  scan r 0 [] false = None -> clear_run (lit_prefix r) s [] = true ->
  re_sub r repl s = s.
Proof.
  intros H0 H. apply re_sub_no_match. unfold re_search.
  rewrite <- (app_nil_r s). apply scan_clear_run; assumption.
Qed.

Ltac clear_segments :=
  rewrite ?clear_run_app;
  repeat (apply andb_true_iff; split);
  first [ reflexivity
        | apply (clear_run_in_run is_word); [reflexivity | assumption]
        | apply clear_run_other, space_other; [reflexivity | assumption] ].

Section TestUserRule.
Variables w ws1 : text.
Hypothesis Hw : forallb is_word w = true.
Hypothesis Nw : w <> [].
Hypothesis Hws1 : forallb is_space ws1 = true.
Hypothesis Nws1 : ws1 <> [].





End TestUserRule.




(** With another indentation before [roles] than eight spaces, the
    second [replace] of the rule finds nothing to remove and the
    password stays twice. *)
Remark test_user_other_indent :
  re_sub Consolidated.test_user_pattern Consolidated.test_user_repl
    (test_user_fields (raw "user") (py "\n      ") (py "\n      "))
  = py "email: `test-user-${Date.now()}@example.com`,\n      password: 'test123',\n      firstName: 'Test',\n        lastName: 'User',\n        password: 'test123',\n        roles: ['user'],".
Proof. vm_compute. reflexivity. Qed.

(** * Further properties of the scripts *)

(** ** Every site of a substitution *)

(** The loop of [re.sub] rewrites matches of the pattern and nothing
    else. *)
Lemma sub_loop_rewrites (r : regex) (repl : Match -> text) (P : text -> text -> Prop) :
  (forall m, den r (group0 m) [] (m_caps m) -> P (group0 m) (repl m)) ->
  forall fuel pos s adv, rewrites P s (sub_loop fuel r repl pos s adv).
Proof.
  intros HP. induction fuel as [|f IH]; intros pos s adv; simpl; [constructor|].
  destruct (scan r pos s adv) as [m|] eqn:E; [|constructor].
  pose proof (scan_sound _ _ _ _ _ E) as (pre & w & post & Hs & Hst & Hen & Hg & Hd).
  replace (m_start m - pos) with (length pre) by lia.
  replace (m_end m - pos) with (length (pre ++ w)) by (rewrite length_app; lia).
  rewrite Hs at 2 3. rewrite firstn_exact, (app_assoc pre w post), skipn_exact.
  rewrite Hs at 1. constructor; [|apply IH].
  rewrite <- Hg. apply HP. rewrite Hg. exact Hd.
Qed.

Lemma re_sub_rewrites (r : regex) (repl : Match -> text) (P : text -> text -> Prop) :
  (forall m, den r (group0 m) [] (m_caps m) -> P (group0 m) (repl m)) ->
  forall s, rewrites P s (re_sub r repl s).
Proof. intros HP s. apply sub_loop_rewrites. exact HP. Qed.

Lemma rewrites_impl (P Q : text -> text -> Prop) (s s' : text) :
  (forall w w', P w w' -> Q w w') -> rewrites P s s' -> rewrites Q s s'.
Proof. intros H. induction 1; constructor; auto. Qed.

Lemma nonblank_app (u v : text) : nonblank (u ++ v) = nonblank u ++ nonblank v.
Proof. apply List.filter_app. Qed.

Lemma nonblank_space (ws : text) : forallb is_space ws = true -> nonblank ws = [].
Proof.
  induction ws as [|a ws IH]; simpl; [reflexivity|].
  intros H. apply andb_true_iff in H as [Ha Hw]. rewrite Ha. simpl. apply IH. exact Hw.
Qed.

(** When every site keeps its characters other than white space, in
    their order, so does the text. *)
Lemma rewrites_nonblank (s s' : text) :
  rewrites (fun w w' => sublist (nonblank w) (nonblank w')) s s' ->
  sublist (nonblank s) (nonblank s').
Proof.
  induction 1 as [s|pre w w' s s' Hw _ IH]; [reflexivity|].
  rewrite !nonblank_app. apply sublist_app; [reflexivity|].
  apply sublist_app; assumption.
Qed.


Lemma inserted_between_nonblank (ins w w' : text) :
  inserted_between ins w w' -> sublist (nonblank w) (nonblank w').
Proof.
  intros (g1 & ws & g2 & -> & Hws & ->).
  rewrite !nonblank_app, (nonblank_space ws Hws). simpl.
  apply sublist_app; [reflexivity|]. apply sublist_inserts_l. reflexivity.
Qed.

Lemma Forall_forallb_space (ws : text) :
  Forall (fun a => is_space a = true) ws -> forallb is_space ws = true.
Proof. induction 1 as [|a ws Ha _ IH]; simpl; [reflexivity|]. rewrite Ha. exact IH. Qed.

(** Two groups around [\s+]. *)
Lemma den_two_groups_plus (r1 r2 : regex) (w : text) (c : caps) :
  group_free r2 = true ->
  den (Seq (Grp 1 r1)
         (Seq (Seq (Cls false [ISpace]) (Star Greedy (Cls false [ISpace])))
            (Seq (Grp 2 r2) Eps)))
      w [] c ->
  exists g1 ws g2,
    w = g1 ++ ws ++ g2 /\ Forall (fun a => is_space a = true) ws /\ ws <> [] /\
    cap_lookup 1 c = Some g1 /\ cap_lookup 2 c = Some g2.
Proof.
  intros Hfree H. cbn [den] in H.
  destruct H as (g1 & w' & c1 & -> & (c0 & _ & ->) & H).
  destruct H as (ws & w'' & c2 & -> & Hws & H).
  destruct Hws as (ws1 & ws2 & c5 & -> & (a & -> & Ha & ->) & Hws).
  destruct H as (g2 & e & c3 & -> & (c4 & H2 & ->) & -> & ->).
  apply star_cls_den in Hws as [-> Hws].
  apply (den_group_free _ Hfree) in H2. subst c4.
  exists g1, ([a] ++ ws2), g2. rewrite app_nil_r. repeat split; try discriminate.
  constructor.
  - unfold cmatch in Ha. simpl in Ha. rewrite orb_false_r in Ha. exact Ha.
  - induction Hws as [|b ws Hb _ IH]; constructor; [|exact IH].
    unfold cmatch in Hb. simpl in Hb. rewrite orb_false_r in Hb. exact Hb.
Qed.

(** The replacement of a pattern of two groups around [\s*]. *)
Lemma two_groups_site (r1 r2 : regex) (ins : text) (repl : Match -> text) :
  group_free r2 = true ->
  (forall m, repl m = fmt (group m 1) ++ ins ++ fmt (group m 2)) ->
  forall m,
    den (Seq (Grp 1 r1) (Seq (Star Greedy (Cls false [ISpace])) (Seq (Grp 2 r2) Eps)))
      (group0 m) [] (m_caps m) ->
    inserted_between ins (group0 m) (repl m).
Proof.
  intros Hfree Hrepl m H.
  apply den_two_groups in H as (g1 & ws & g2 & Hw & Hws & H1 & H2); [|exact Hfree].
  exists g1, ws, g2. split; [exact Hw|]. split; [apply Forall_forallb_space; exact Hws|].
  rewrite Hrepl. unfold group. rewrite H1, H2. reflexivity.
Qed.

Lemma two_groups_plus_site (r1 r2 : regex) (ins : text) (repl : Match -> text) :
  group_free r2 = true ->
  (forall m g1 g2, group m 1 = Some g1 -> group m 2 = Some g2 -> repl m = g1 ++ ins ++ g2) ->
  forall m,
    den (Seq (Grp 1 r1)
           (Seq (Seq (Cls false [ISpace]) (Star Greedy (Cls false [ISpace])))
              (Seq (Grp 2 r2) Eps)))
      (group0 m) [] (m_caps m) ->
    inserted_between ins (group0 m) (repl m).
Proof.
  intros Hfree Hrepl m H.
  apply den_two_groups_plus in H as (g1 & ws & g2 & Hw & Hws & _ & H1 & H2); [|exact Hfree].
  exists g1, ws, g2. split; [exact Hw|]. split; [apply Forall_forallb_space; exact Hws|].
  apply Hrepl; assumption.
Qed.

(** ** The four fixes of [fix-test-files.py] as functions of the text *)

Lemma state_eta (st : Consolidated.State) :
  Consolidated.mkState (Consolidated.fixes_applied st) (Consolidated.world st) = st.
Proof. destruct st; reflexivity. Qed.

Lemma mark_same (label : text) (c : text) : mark label c c = [].
Proof. unfold mark. rewrite text_eqb_refl. reflexivity. Qed.

(** An insertion makes the text longer. *)
Lemma insert_differs (n : nat) (c h : text) :
  h <> [] -> text_eqb (firstn n c ++ h ++ skipn n c) c = false.
Proof.
  intros Hh. apply text_eqb_neq. intros E. apply (f_equal (@length ascii)) in E.
  pose proof (f_equal (@length ascii) (firstn_skipn n c)) as Hc.
  rewrite !length_app in *. destruct h; [contradiction | simpl in *; lia].
Qed.

Lemma helper_records :
  records (raw "Added Lexical helper function")
    Consolidated.add_lexical_helper AllTestContent.insert_helper.
Proof.
  intros c st. unfold Consolidated.add_lexical_helper, AllTestContent.insert_helper.
  change AllTestContent.import_pattern with Consolidated.import_pattern.
  change AllTestContent.helper_function with Consolidated.helper_function.
  destruct (contains (raw "createLexicalContent") c); cbn [negb].
  - rewrite mark_same, app_nil_r, state_eta. reflexivity.
  - destruct (re_search Consolidated.import_pattern c) as [m|].
    + unfold mark. rewrite insert_differs by discriminate. reflexivity.
    + rewrite mark_same, app_nil_r, state_eta. reflexivity.
Qed.

Lemma report_records (label : text) (g : text -> text) :
  records label
    (fun content =>
       Consolidated.bind
         (if negb (text_eqb (g content) content)
          then Consolidated.append_fix label else Consolidated.ret tt)
         (fun _ => Consolidated.ret (g content)))
    g.
Proof.
  intros c st. unfold mark, Consolidated.bind.
  destruct (text_eqb (g c) c); cbn [negb].
  - unfold Consolidated.ret. rewrite app_nil_r, state_eta. reflexivity.
  - reflexivity.
Qed.

Lemma user_records :
  records (raw "Fixed user creation")
    Consolidated.fix_user_creation Consolidated.user_creation_text.
Proof. exact (report_records _ Consolidated.user_creation_text). Qed.

Lemma root_records :
  records (raw "Fixed root structures")
    Consolidated.fix_root_structures Consolidated.root_structures_text.
Proof. exact (report_records _ Consolidated.root_structures_text). Qed.

Lemma lexical_records :
  records (raw "Fixed Lexical content structures")
    Consolidated.fix_lexical_content Consolidated.lexical_content_text.
Proof. exact (report_records _ Consolidated.lexical_content_text). Qed.

Lemma when_records (label : text) (f : text -> Consolidated.M text) (g : text -> text)
    (b : bool) :
  records label f g -> records label (Consolidated.when b f) (fun c => if b then g c else c).
Proof.
  intros H. destruct b; [exact H|]. intros c st.
  unfold Consolidated.when, Consolidated.ret.
  rewrite mark_same, app_nil_r, state_eta. reflexivity.
Qed.

(** [apply_fixes] in one equation: the four texts one after the other,
    and the names of the fixes that changed the text. *)
Lemma apply_fixes_eq (fix_types : option (list text)) (content : text)
    (st : Consolidated.State) :
  let c1 := if Consolidated.selected "lexical-helper" fix_types
            then AllTestContent.insert_helper content else content in
  let c2 := if Consolidated.selected "user-creation" fix_types
            then Consolidated.user_creation_text c1 else c1 in
  let c3 := if Consolidated.selected "root-structures" fix_types
            then Consolidated.root_structures_text c2 else c2 in
  let c4 := if Consolidated.selected "lexical-content" fix_types
            then Consolidated.lexical_content_text c3 else c3 in
  Consolidated.apply_fixes fix_types content st =
  (c4, Consolidated.mkState
         (Consolidated.fixes_applied st ++
          mark (raw "Added Lexical helper function") c1 content ++
          mark (raw "Fixed user creation") c2 c1 ++
          mark (raw "Fixed root structures") c3 c2 ++
          mark (raw "Fixed Lexical content structures") c4 c3)
         (Consolidated.world st)).
Proof.
  intros c1 c2 c3 c4. unfold Consolidated.apply_fixes, Consolidated.bind.
  rewrite (when_records _ _ _ (Consolidated.selected "lexical-helper" fix_types)
             helper_records content st).
  rewrite (when_records _ _ _ (Consolidated.selected "user-creation" fix_types)
             user_records).
  rewrite (when_records _ _ _ (Consolidated.selected "root-structures" fix_types)
             root_records).
  rewrite (when_records _ _ _ (Consolidated.selected "lexical-content" fix_types)
             lexical_records).
  cbn [Consolidated.fixes_applied Consolidated.world].
  rewrite <- !app_assoc. reflexivity.
Qed.

(** The text of [apply_fixes] does not depend on the state. *)
Lemma apply_fixes_text (fix_types : option (list text)) (content : text)
    (st : Consolidated.State) :
  fst (Consolidated.apply_fixes fix_types content st) = Consolidated.apply fix_types content.
Proof. unfold Consolidated.apply. rewrite !apply_fixes_eq. reflexivity. Qed.

Lemma selected_membership (name : string) (l1 l2 : list text) :
  (forall v, In v l1 <-> In v l2) ->
  Consolidated.selected name (Some l1) = Consolidated.selected name (Some l2).
Proof.
  intros H.
  assert (E : existsb (text_eqb (raw name)) l1 = existsb (text_eqb (raw name)) l2).
  { apply eq_true_iff_eq. rewrite !existsb_exists.
    split; intros (v & Hin & Hv); exists v; (split; [apply H; exact Hin | exact Hv]). }
  unfold Consolidated.selected.
  destruct l1 as [|a l1], l2 as [|b l2]; try reflexivity; try exact E.
  - exfalso. apply (proj2 (H b)). left. reflexivity.
  - exfalso. apply (proj1 (H a)). left. reflexivity.
Qed.

Lemma selected_all (name : string) (l : list text) :
  In (raw name) l -> Consolidated.selected name (Some l) = true.
Proof.
  intros H. unfold Consolidated.selected. destruct l as [|a l]; [reflexivity|].
  apply existsb_exists. exists (raw name). split; [exact H | apply text_eqb_refl].
Qed.

(** X1.  The values of [--fix-types] act as a set: two lists with the
    same members, in any order and with any repetition, select the same
    fixes, which run in the order of [process_file]; the empty list
    selects every fix, as the absent option does, and so does a list
    that holds the four names. *)
Theorem fix_types_act_as_a_set (l1 l2 : list text) (content : text)
    (st : Consolidated.State) :
  ((forall v, In v l1 <-> In v l2) ->
   Consolidated.apply_fixes (Some l1) content st
   = Consolidated.apply_fixes (Some l2) content st)
  /\ Consolidated.apply_fixes (Some []) content st
     = Consolidated.apply_fixes None content st
  /\ ((forall v, In v Consolidated.choices -> In v l1) ->
      Consolidated.apply_fixes (Some l1) content st
      = Consolidated.apply_fixes None content st).
Proof.
  split; [|split].
  - intros H. rewrite !apply_fixes_eq. cbv zeta.
    rewrite !(selected_membership _ l1 l2 H). reflexivity.
  - reflexivity.
  - intros H. rewrite !apply_fixes_eq. cbv zeta.
    rewrite !selected_all by (apply H; simpl; tauto). reflexivity.
Qed.

(** X1 at two orders of the same two names. *)
Lemma fix_types_act_as_a_set_witness :
  Consolidated.apply_fixes (Some [raw "lexical-content"; raw "root-structures"])
    two_roots (Consolidated.mkState [] (mkWorld ∅ [] []))
  = Consolidated.apply_fixes
      (Some [raw "root-structures"; raw "lexical-content"; raw "root-structures"])
      two_roots (Consolidated.mkState [] (mkWorld ∅ [] [])).
Proof.
  apply (proj1 (fix_types_act_as_a_set
                  [raw "lexical-content"; raw "root-structures"]
                  [raw "root-structures"; raw "lexical-content"; raw "root-structures"]
                  two_roots (Consolidated.mkState [] (mkWorld ∅ [] [])))).
  intros v. simpl. tauto.
Defined.

Lemma mark_sublist (label : text) (c' c : text) (l k : list text) :
  sublist l k -> sublist (mark label c' c ++ l) (label :: k).
Proof.
  intros H. unfold mark. destruct (text_eqb c' c); simpl.
  - apply sublist_cons. exact H.
  - apply sublist_skip. exact H.
Qed.

Lemma mark_nil (label : text) (c' c : text) : mark label c' c = [] -> c' = c.
Proof.
  unfold mark. destruct (text_eqb c' c) eqn:E; [|discriminate].
  intros _. apply text_eqb_eq. exact E.
Qed.

(** What [apply_fixes] adds to [fixes_applied]. *)
Lemma apply_fixes_names (fix_types : option (list text))
    (content : text) (st : Consolidated.State) :
  exists l,
    Consolidated.fixes_applied (snd (Consolidated.apply_fixes fix_types content st))
    = Consolidated.fixes_applied st ++ l
    /\ sublist l fix_names
    /\ (l = [] -> fst (Consolidated.apply_fixes fix_types content st) = content).
Proof.
  rewrite apply_fixes_eq. cbv zeta. cbn [fst snd Consolidated.fixes_applied].
  eexists. split; [reflexivity|]. split.
  - unfold fix_names. repeat apply mark_sublist.
    rewrite <- (app_nil_r (mark _ _ _)). apply mark_sublist. constructor.
  - intros H.
    apply app_eq_nil in H as [H1 H]. apply app_eq_nil in H as [H2 H].
    apply app_eq_nil in H as [H3 H4].
    apply mark_nil in H1, H2, H3, H4. congruence.
Qed.

(** X2.  What [apply_fixes] adds to [fixes_applied] is a selection of
    the four names, each at most once and in the order of the fixes; and
    when it adds nothing, the text is the one it was given: a text that
    has changed always comes with the name of a fix. *)
Theorem fixes_applied_names_the_changes (fix_types : option (list text))
    (content : text) (st : Consolidated.State) :
  exists l,
    Consolidated.fixes_applied (snd (Consolidated.apply_fixes fix_types content st))
    = Consolidated.fixes_applied st ++ l
    /\ sublist l fix_names
    /\ (l = [] -> fst (Consolidated.apply_fixes fix_types content st) = content).
Proof. apply apply_fixes_names. Qed.

(** ** [process_file] and [main] on the file system *)

Lemma process_file_missing (filepath : string) (fix_types : option (list text))
    (st : Consolidated.State) :
  files (Consolidated.world st) !! filepath = None ->
  Consolidated.process_file filepath fix_types st =
  (false, Consolidated.mkState (Consolidated.fixes_applied st)
            (print (raw "SKIP: " ++ raw filepath ++ raw " not found")
               (Consolidated.world st))).
Proof.
  intros Hf. unfold Consolidated.process_file, Consolidated.bind,
    Consolidated.ask_world, exists_file.
  rewrite Hf. reflexivity.
Qed.

(** [process_file] on an existing file, with the text of the fixes. *)
Lemma process_file_present (filepath : string) (fix_types : option (list text))
    (st : Consolidated.State) (content : text) :
  files (Consolidated.world st) !! filepath = Some content ->
  exists fixes line,
    Consolidated.process_file filepath fix_types st =
    if text_eqb (Consolidated.apply fix_types content) content then
      (false, Consolidated.mkState fixes (print line (Consolidated.world st)))
    else
      (true, Consolidated.mkState fixes
               (print line
                  (write_file filepath (Consolidated.apply fix_types content)
                     (Consolidated.world st)))).
Proof.
  intros Hf. rewrite (process_file_eq _ _ _ _ Hf). cbv zeta.
  rewrite apply_fixes_text, apply_fixes_world.
  cbn [Consolidated.world].
  destruct (text_eqb (Consolidated.apply fix_types content) content);
    cbn [negb]; eexists _, _; reflexivity.
Qed.

(** The one file that [process_file] touches. *)
Lemma process_file_frame (filepath : string) (fix_types : option (list text))
    (st : Consolidated.State) :
  let r := Consolidated.process_file filepath fix_types st in
  let w := Consolidated.world st in
  let w' := Consolidated.world (snd r) in
  (forall p, p <> filepath -> files w' !! p = files w !! p)
  /\ files w' !! filepath = Consolidated.apply fix_types <$> files w !! filepath
  /\ written w' = written w ++ (if fst r then [(filepath, read_file filepath w')] else [])
  /\ (fst r = true <->
      exists c, files w !! filepath = Some c /\ Consolidated.apply fix_types c <> c)
  /\ (exists line, printed w' = printed w ++ [line]).
Proof.
  cbv zeta. destruct (files (Consolidated.world st) !! filepath) as [c|] eqn:Hf.
  - destruct (process_file_present filepath fix_types st c Hf) as (fixes & line & ->).
    destruct (text_eqb (Consolidated.apply fix_types c) c) eqn:E;
      cbn [fst snd Consolidated.world print write_file files written printed].
    + apply text_eqb_eq in E. split; [|split; [|split; [|split]]].
      * reflexivity.
      * rewrite Hf. cbn. rewrite E. reflexivity.
      * rewrite app_nil_r. reflexivity.
      * split; [discriminate|].
        intros (c0 & Hc0 & Hne). injection Hc0 as <-. contradiction.
      * eexists. reflexivity.
    + apply text_eqb_neq in E. split; [|split; [|split; [|split]]].
      * intros p Hp. apply lookup_insert_ne. congruence.
      * rewrite lookup_insert_eq. reflexivity.
      * unfold read_file. cbn [print write_file files]. rewrite lookup_insert_eq.
        reflexivity.
      * split; [|reflexivity]. intros _. exists c. split; [reflexivity | exact E].
      * eexists. reflexivity.
  - rewrite (process_file_missing _ _ _ Hf).
    cbn [fst snd Consolidated.world print files written printed].
    split; [|split; [|split; [|split]]].
    + reflexivity.
    + rewrite Hf. reflexivity.
    + rewrite app_nil_r. reflexivity.
    + split; [discriminate|].
      intros (c0 & Hc0 & _). discriminate.
    + eexists. reflexivity.
Qed.


(** The loop of [main]. *)
Lemma process_all_effect (fix_types : option (list text)) :
  forall paths n st,
    let r := Consolidated.process_all paths fix_types n st in
    let w := Consolidated.world st in
    let w' := Consolidated.world (snd r) in
    n <= fst r /\ fst r <= n + length paths
    /\ length (written w') = length (written w) + (fst r - n)
    /\ (exists lines, printed w' = printed w ++ lines /\ length lines = length paths)
    /\ (forall p, ~ In p paths -> files w' !! p = files w !! p)
    /\ (List.NoDup paths -> forall p, In p paths ->
        files w' !! p = Consolidated.apply fix_types <$> files w !! p).
Proof.
  induction paths as [|p paths IH]; intros n st; cbv zeta.
  - cbn. split; [lia|]. split; [lia|]. split; [lia|].
    split; [exists []; rewrite app_nil_r; split; reflexivity|].
    split; [reflexivity|]. intros _ q [].
  - cbn [Consolidated.process_all]. unfold Consolidated.bind.
    pose proof (process_file_frame p fix_types st) as Hp. cbv zeta in Hp.
    destruct (Consolidated.process_file p fix_types st) as [fixed st1].
    cbn [fst snd] in Hp. destruct Hp as (Hframe & Hfile & Hlog & _ & (line & Hline)).
    specialize (IH (if fixed then n + 1 else n) st1). cbv zeta in IH.
    destruct IH as (Hlo & Hhi & Hw & (lines & Hlines & Hlen) & Hother & Hin).
    split; [destruct fixed; lia|].
    split; [destruct fixed; cbn [length]; lia|].
    split.
    { rewrite Hw, Hlog, length_app. destruct fixed; cbn [length]; lia. }
    split.
    { exists (line :: lines). rewrite Hlines, Hline, <- app_assoc.
      split; [reflexivity | cbn [length]; rewrite Hlen; reflexivity]. }
    split.
    { intros q Hq. rewrite Hother by (intros H; apply Hq; right; exact H).
      apply Hframe. intros ->. apply Hq. left. reflexivity. }
    intros Hnd q Hq. apply NoDup_cons_iff in Hnd as [Hp Hnd].
    destruct Hq as [<-|Hq].
    + rewrite (Hother p Hp). exact Hfile.
    + rewrite (Hin Hnd q Hq). rewrite Hframe; [reflexivity|].
      intros ->. contradiction.
Qed.

Lemma main_eq (glob : World -> string -> list string) (argv : Consolidated.Namespace)
    (w : World) :
  Consolidated.parse_args argv = inr argv ->
  Consolidated.main glob argv w =
  let r := Consolidated.process_all (files_to_process glob argv w)
             (Consolidated.ns_fix_types argv) 0 (Consolidated.mkState [] w) in
  (Consolidated.Finished,
   print (py "\nProcessed " ++
          Consolidated.str_of_nat (length (files_to_process glob argv w)) ++
          raw " files, fixed " ++ Consolidated.str_of_nat (fst r) ++ raw " files")
     (Consolidated.world (snd r))).
Proof.
  intros H. unfold Consolidated.main. rewrite H. cbv zeta.
  change (match Consolidated.ns_pattern argv with
          | Some (String a s) => glob w (String a s)
          | _ => match Consolidated.ns_files argv with
                 | [] => Consolidated.default_files
                 | s :: l => s :: l
                 end
          end) with (files_to_process glob argv w).
  destruct (Consolidated.process_all _ _ _ _). reflexivity.
Qed.

(** X4.  On a command line that [argparse] accepts, [main] ends
    normally; it prints one line for every file it goes through and
    then the summary, in which the first number is the number of these
    files and the second the number of writes it has done, at most one
    for each file. *)
Theorem main_reports_its_writes (glob : World -> string -> list string)
    (argv : Consolidated.Namespace) (w : World) :
  Consolidated.parse_args argv = inr argv ->
  let paths := files_to_process glob argv w in
  let r := Consolidated.main glob argv w in
  exists fixed lines,
    fst r = Consolidated.Finished
    /\ printed (snd r) = printed w ++ lines ++
         [py "\nProcessed " ++ Consolidated.str_of_nat (length paths) ++
          raw " files, fixed " ++ Consolidated.str_of_nat fixed ++ raw " files"]
    /\ length lines = length paths
    /\ length (written (snd r)) = length (written w) + fixed
    /\ fixed <= length paths.
Proof.
  intros H. cbv zeta. rewrite (main_eq _ _ _ H). cbv zeta.
  pose proof (process_all_effect (Consolidated.ns_fix_types argv)
                (files_to_process glob argv w) 0 (Consolidated.mkState [] w)) as He.
  cbv zeta in He. cbn [Consolidated.world] in He.
  destruct He as (_ & Hhi & Hw & (lines & Hlines & Hlen) & _).
  eexists _, lines. cbn [fst snd print printed written].
  split; [reflexivity|]. split; [rewrite Hlines, <- app_assoc; reflexivity|].
  split; [exact Hlen|]. split; [rewrite Hw; lia | lia].
Qed.

(** X4 at a run over two files, one of them missing. *)
Lemma main_reports_its_writes_witness :
  exists fixed lines,
    fst (Consolidated.main (fun _ _ => [])
           (Consolidated.mkNamespace ["a.ts"; "b.ts"]%string None None)
           (mkWorld {[ "a.ts"%string := two_roots ]} [] []))
    = Consolidated.Finished
    /\ printed (snd (Consolidated.main (fun _ _ => [])
                       (Consolidated.mkNamespace ["a.ts"; "b.ts"]%string None None)
                       (mkWorld {[ "a.ts"%string := two_roots ]} [] [])))
       = [] ++ lines ++
         [py "\nProcessed " ++ Consolidated.str_of_nat 2 ++
          raw " files, fixed " ++ Consolidated.str_of_nat fixed ++ raw " files"]
    /\ length lines = 2
    /\ length (written (snd (Consolidated.main (fun _ _ => [])
                       (Consolidated.mkNamespace ["a.ts"; "b.ts"]%string None None)
                       (mkWorld {[ "a.ts"%string := two_roots ]} [] [])))) = 0 + fixed
    /\ fixed <= 2.
Proof.
  apply (main_reports_its_writes (fun _ _ => [])
           (Consolidated.mkNamespace ["a.ts"; "b.ts"]%string None None)
           (mkWorld {[ "a.ts"%string := two_roots ]} [] [])).
  reflexivity.
Defined.



(** ** The report of [process_file] *)

(** X6.  The line that [process_file] prints tells what it did: on a
    missing file, that the file is skipped, and [fixes_applied] is not
    touched; on a file that exists, [fixes_applied] is set to names of
    the four fixes, whatever it held before, and the line is
    [NO CHANGES] when nothing is written, else [FIXED] followed by
    these names, of which there is at least one. *)
Theorem process_file_report (filepath : string) (fix_types : option (list text))
    (st : Consolidated.State) :
  let r := Consolidated.process_file filepath fix_types st in
  let w := Consolidated.world st in
  let w' := Consolidated.world (snd r) in
  match files w !! filepath with
  | None =>
      fst r = false
      /\ printed w' = printed w ++ [raw "SKIP: " ++ raw filepath ++ raw " not found"]
      /\ Consolidated.fixes_applied (snd r) = Consolidated.fixes_applied st
  | Some content =>
      exists l,
        Consolidated.fixes_applied (snd r) = l /\ sublist l fix_names
        /\ (fst r = false ->
            printed w' = printed w ++ [raw "NO CHANGES: " ++ raw filepath])
        /\ (fst r = true ->
            l <> []
            /\ printed w' = printed w ++
                 [raw "FIXED: " ++ raw filepath ++ raw " - " ++ join (raw ", ") l])
  end.
Proof.
  cbv zeta. destruct (files (Consolidated.world st) !! filepath) as [c|] eqn:Hf.
  - rewrite (process_file_eq _ _ _ _ Hf). cbv zeta.
    destruct (apply_fixes_names fix_types c
                (Consolidated.mkState [] (Consolidated.world st)))
      as (l & Hl & Hsub & Hnil).
    cbn [Consolidated.fixes_applied app] in Hl.
    rewrite apply_fixes_world. cbn [Consolidated.world].
    exists l.
    destruct (text_eqb (fst (Consolidated.apply_fixes fix_types c
                               (Consolidated.mkState [] (Consolidated.world st)))) c)
      eqn:E;
      cbn [negb fst snd Consolidated.fixes_applied Consolidated.world print printed
           write_file].
    + split; [exact Hl|]. split; [exact Hsub|]. split; [|discriminate].
      intros _. reflexivity.
    + split; [exact Hl|]. split; [exact Hsub|]. split; [discriminate|].
      intros _. split; [|rewrite Hl; reflexivity].
      intros ->. apply text_eqb_neq in E. apply E. apply Hnil. reflexivity.
  - rewrite (process_file_missing _ _ _ Hf).
    cbn [fst snd Consolidated.fixes_applied Consolidated.world print printed].
    repeat split.
Qed.

(** ** The scripts that loop over a list of files *)

Section ForEachFile.
Variable skip : string -> text.
Variable body : string -> text -> World -> World.
Variable f : text -> text.
Variable always : bool.

Hypothesis body_files : forall p c w,
  files w !! p = Some c -> files (body p c w) = <[p := f c]> (files w).
Hypothesis body_written : forall p c w,
  written (body p c w) =
  written w ++ (if always || negb (text_eqb (f c) c) then [(p, f c)] else []).



End ForEachFile.





(** ** The scripts of one file *)



(** ** The fixes of [fix_all_remaining_errors.py] *)

Lemma fix_step_fst (r : regex) (repl : Match -> text) (label : text)
    (content : text) (changes : list text) :
  fst (RemainingErrors.fix_step r repl label (content, changes)) = re_sub r repl content.
Proof.
  unfold RemainingErrors.fix_step.
  destruct (text_eqb (re_sub r repl content) content) eqn:E; simpl; [|reflexivity].
  apply text_eqb_eq in E. symmetry. exact E.
Qed.

Lemma draft_site (m : Match) :
  den RemainingErrors.pattern1 (group0 m) [] (m_caps m) ->
  inserted_between (py "\n      draft: false,\n    ") (group0 m) (RemainingErrors.add_draft m).
Proof.
  unfold RemainingErrors.pattern1. apply two_groups_plus_site; [reflexivity|].
  intros m' g1 g2 H1 H2. unfold RemainingErrors.add_draft. rewrite H1, H2. reflexivity.
Qed.

Lemma root_site (m : Match) :
  den RemainingErrors.pattern2 (group0 m) [] (m_caps m) ->
  inserted_between root_properties (group0 m) (RemainingErrors.add_root_properties m).
Proof.
  unfold RemainingErrors.pattern2. apply two_groups_site; [reflexivity|]. reflexivity.
Qed.

Lemma root_site_multi (m : Match) :
  den RemainingErrors.pattern3 (group0 m) [] (m_caps m) ->
  inserted_between root_properties (group0 m) (RemainingErrors.add_root_properties m).
Proof.
  unfold RemainingErrors.pattern3. apply two_groups_site; [reflexivity|]. reflexivity.
Qed.

(** A substitution whose sites keep their characters other than white
    space keeps those of the text. *)
Lemma re_sub_nonblank (r : regex) (repl : Match -> text) (ins : text) (s : text) :
  (forall m, den r (group0 m) [] (m_caps m) -> inserted_between ins (group0 m) (repl m)) ->
  sublist (nonblank s) (nonblank (re_sub r repl s)).
Proof.
  intros H. apply rewrites_nonblank.
  apply (rewrites_impl (inserted_between ins)); [apply inserted_between_nonblank|].
  apply re_sub_rewrites. exact H.
Qed.

(** X10.  The three fixes of [fix_all_remaining_errors.py] only replace
    white space by new text: the characters of a document that are not
    white space are all in the result, in the same order. *)
Theorem remaining_errors_keeps_text (content : text) :
  sublist (nonblank content) (nonblank (fst (RemainingErrors.fix_all content))).
Proof.
  unfold RemainingErrors.fix_all.
  destruct (RemainingErrors.fix_step RemainingErrors.pattern1 _ _ (content, []))
    as [c1 ch1] eqn:E1.
  destruct (RemainingErrors.fix_step RemainingErrors.pattern2 _ _ (c1, ch1))
    as [c2 ch2] eqn:E2.
  apply (f_equal fst) in E1, E2. rewrite fix_step_fst in E1, E2. simpl in E1, E2.
  rewrite fix_step_fst. subst c1 c2.
  etransitivity; [|apply (re_sub_nonblank _ _ _ _ root_site_multi)].
  etransitivity; [|apply (re_sub_nonblank _ _ _ _ root_site)].
  apply (re_sub_nonblank _ _ _ _ draft_site).
Qed.

Lemma fix_step_eq (r : regex) (repl : Match -> text) (label : text)
    (content : text) (changes : list text) :
  RemainingErrors.fix_step r repl label (content, changes)
  = (re_sub r repl content, changes ++ mark label (re_sub r repl content) content).
Proof.
  unfold RemainingErrors.fix_step, mark.
  destruct (text_eqb (re_sub r repl content) content) eqn:E; cbn [negb].
  - apply text_eqb_eq in E. rewrite E at 1. rewrite app_nil_r. reflexivity.
  - reflexivity.
Qed.

(** X11.  The list [changes] of [fix_all_remaining_errors.py] names the
    fixes that changed the text, each at most once and in their order,
    and it is empty only when the text is the one that was read: the
    line that reports a written file always names a change. *)
Theorem remaining_errors_names_the_changes (content : text) :
  sublist (snd (RemainingErrors.fix_all content))
    [ raw "Added draft property to user creation"; raw "Added root properties";
      raw "Added root properties (multi-paragraph)" ]
  /\ (snd (RemainingErrors.fix_all content) = [] ->
      fst (RemainingErrors.fix_all content) = content).
Proof.
  unfold RemainingErrors.fix_all. rewrite !fix_step_eq. cbn [fst snd app].
  rewrite <- !app_assoc. split.
  - repeat apply mark_sublist.
    rewrite <- (app_nil_r (mark _ _ _)). apply mark_sublist. constructor.
  - intros H. apply app_eq_nil in H as [H1 H]. apply app_eq_nil in H as [H2 H3].
    apply mark_nil in H1, H2, H3. congruence.
Qed.

(** ** The sites of the single substitutions *)












Lemma inserted_before_sublist (ins tail w w' : text) :
  inserted_before ins tail w w' -> sublist w w'.
Proof.
  intros (g & -> & ->). apply sublist_app; [reflexivity|].
  apply sublist_inserts_l. reflexivity.
Qed.





(** ** The sites of the content fix *)


Lemma den_lit (l : text) (r : regex) :
  forall w c c', den (lit_then l r) w c c' -> exists w', w = l ++ w' /\ den r w' c c'.
Proof.
  induction l as [|a l IH]; intros w c c' H.
  - exists w. split; [reflexivity | exact H].
  - cbn [lit_then fold_right den] in H.
    destruct H as (w1 & w2 & c1 & -> & [-> ->] & H).
    apply IH in H as (w' & -> & H). exists w'. split; [reflexivity | exact H].
Qed.




(** ** The indices of [fix_content_block] *)

Lemma finditer_loop_sound (r : regex) :
  forall fuel pos s adv m,
    In m (finditer_loop fuel r pos s adv) -> den r (group0 m) [] (m_caps m).
Proof.
  induction fuel as [|f IH]; intros pos s adv m H; [destruct H|].
  cbn [finditer_loop] in H. destruct (scan r pos s adv) as [m0|] eqn:E; [|destruct H].
  destruct H as [<-|H].
  - apply scan_sound in E as (pre & w & post & _ & _ & _ & Hg & Hd).
    rewrite Hg. exact Hd.
  - eapply IH. exact H.
Qed.

Lemma contains_partition (needle s : text) :
  contains needle s = true -> exists u v, partition_at needle s = Some (u, v).
Proof.
  induction s as [|a s IH]; cbn [contains partition_at]; intros H.
  - rewrite orb_false_r in H. rewrite H. eauto.
  - destruct (startswith needle (a :: s)); [eauto|].
    cbn [orb] in H. destruct (IH H) as (u & v & ->). eauto.
Qed.

Lemma split_fuel_length (f : nat) (sep s : text) : 1 <= length (split_fuel f sep s).
Proof.
  destruct f; cbn [split_fuel]; [simpl; lia|].
  destruct (partition_at sep s) as [[u v]|]; simpl; lia.
Qed.

Lemma split_length (sep s : text) :
  contains sep s = true -> 2 <= length (split sep s).
Proof.
  intros H. apply contains_partition in H as (u & v & H).
  unfold split. cbn [split_fuel]. rewrite H. cbn [length].
  pose proof (split_fuel_length (length s) sep v). lia.
Qed.

(** X18.  On every block that the locator of
    [fix_test_files_carefully.py] hands to [fix_content_block], the
    split at ['children:'] has at least two parts: the index [[1]] of
    the completeness test is in range, and so are the two indices [[0]],
    a split never being empty. *)
Theorem fix_content_block_indices (content : text) (m : Match) :
  In m (re_finditer Carefully.block_pattern content) ->
  2 <= length (split (raw "children:") (group0 m))
  /\ 1 <= length (split (raw "],") (nth 1 (split (raw "children:") (group0 m)) []))
  /\ 1 <= length (split (raw "}") (Carefully.rest (group0 m))).
Proof.
  intros H. split; [|split; apply split_fuel_length].
  apply finditer_loop_sound in H.
  apply block_pattern_den in H as (ws & x1 & x2 & body & x3 & -> & _).
  apply split_length. apply contains_split.
  exists (raw "content: {" ++ ws ++ raw "root: {" ++ x1 ++ raw "type: 'root'," ++ x2),
         (raw " [" ++ body ++ raw "]," ++ x3 ++ raw "}").
  rewrite <- !app_assoc. reflexivity.
Qed.

(** X18 at a root whose children hold no nested list. *)
Lemma fix_content_block_indices_witness :
  2 <= length (split (raw "children:")
                 (group0 (nth 0 (re_finditer Carefully.block_pattern flat_root)
                            (mkMatch 0 0 [] [])))).
Proof.
  apply (fix_content_block_indices flat_root
           (nth 0 (re_finditer Carefully.block_pattern flat_root) (mkMatch 0 0 [] []))).
  vm_compute. left. reflexivity.
Defined.

(** ** The consolidated fixer and the scripts it combines *)

Lemma apply_eq (fix_types : option (list text)) (content : text) :
  Consolidated.apply fix_types content =
  let c1 := if Consolidated.selected "lexical-helper" fix_types
            then AllTestContent.insert_helper content else content in
  let c2 := if Consolidated.selected "user-creation" fix_types
            then Consolidated.user_creation_text c1 else c1 in
  let c3 := if Consolidated.selected "root-structures" fix_types
            then Consolidated.root_structures_text c2 else c2 in
  if Consolidated.selected "lexical-content" fix_types
  then Consolidated.lexical_content_text c3 else c3.
Proof. unfold Consolidated.apply. rewrite apply_fixes_eq. reflexivity. Qed.

(** X19.  With one fix selected, [fix-test-files.py] computes what the
    script it took the fix from computes: the helper insertion of
    [fix_all_test_content.py], the content fix of [fix_blogs_lexical.py],
    and, after the draft insertion, the two root fixes of
    [fix_all_remaining_errors.py]; with the helper, the user and the
    content fix selected it computes the text of
    [fix_all_test_content.py] whenever its draft insertion, which that
    script does not have, finds no site. *)
Theorem consolidated_agrees_with_scripts (content : text) :
  Consolidated.apply (Some [raw "lexical-helper"]) content
    = AllTestContent.insert_helper content
  /\ Consolidated.apply (Some [raw "lexical-content"]) content
     = BlogsLexical.fix_text content
  /\ Consolidated.apply (Some [raw "root-structures"])
       (re_sub RemainingErrors.pattern1 RemainingErrors.add_draft content)
     = fst (RemainingErrors.fix_all content)
  /\ (no_match Consolidated.pattern1 (AllTestContent.insert_helper content) = true ->
      Consolidated.apply
        (Some [raw "lexical-helper"; raw "user-creation"; raw "lexical-content"]) content
      = AllTestContent.fix_text content).
Proof.
  split; [|split; [|split]].
  - rewrite apply_eq. reflexivity.
  - rewrite apply_eq. reflexivity.
  - rewrite apply_eq. unfold RemainingErrors.fix_all.
    destruct (RemainingErrors.fix_step RemainingErrors.pattern1 _ _ (content, []))
      as [c1 ch1] eqn:E1.
    destruct (RemainingErrors.fix_step RemainingErrors.pattern2 _ _ (c1, ch1))
      as [c2 ch2] eqn:E2.
    apply (f_equal fst) in E1, E2. rewrite fix_step_fst in E1, E2. cbn [fst] in E1, E2.
    rewrite fix_step_fst. subst c1 c2. reflexivity.
  - intros H. rewrite apply_eq.
    change (Consolidated.selected "lexical-helper"
              (Some [raw "lexical-helper"; raw "user-creation"; raw "lexical-content"]))
      with true.
    change (Consolidated.selected "user-creation"
              (Some [raw "lexical-helper"; raw "user-creation"; raw "lexical-content"]))
      with true.
    change (Consolidated.selected "root-structures"
              (Some [raw "lexical-helper"; raw "user-creation"; raw "lexical-content"]))
      with false.
    change (Consolidated.selected "lexical-content"
              (Some [raw "lexical-helper"; raw "user-creation"; raw "lexical-content"]))
      with true.
    cbv zeta iota. unfold Consolidated.user_creation_text.
    rewrite (no_match_sub _ _ _ H). reflexivity.
Qed.

(** X19 at a document with an import and no users call. *)
Lemma consolidated_agrees_with_scripts_witness :
  Consolidated.apply
    (Some [raw "lexical-helper"; raw "user-creation"; raw "lexical-content"])
    (py "import { x } from 'y'\nconst z = 1\n")
  = AllTestContent.fix_text (py "import { x } from 'y'\nconst z = 1\n").
Proof.
  apply (consolidated_agrees_with_scripts (py "import { x } from 'y'\nconst z = 1\n")).
  vm_compute. reflexivity.
Defined.

(** ** [fix_tests_final.py] *)

Lemma startswith_skipn (needle s : text) :
  startswith needle s = true -> s = needle ++ skipn (length needle) s.
Proof.
  intros H. apply startswith_prefix in H as [t ->]. rewrite skipn_exact. reflexivity.
Qed.

Lemma partition_at_spec (needle : text) :
  forall s u v, partition_at needle s = Some (u, v) -> s = u ++ needle ++ v.
Proof.
  induction s as [|a s IH]; intros u v H; cbn [partition_at] in H.
  - destruct (startswith needle []) eqn:E; [|discriminate].
    injection H as <- <-. apply (startswith_skipn _ _ E).
  - destruct (startswith needle (a :: s)) eqn:E.
    + injection H as <- <-. apply (startswith_skipn _ _ E).
    + destruct (partition_at needle s) as [[u' v']|]; [|discriminate].
      injection H as <- <-. rewrite (IH u' v' eq_refl) at 1. reflexivity.
Qed.

Lemma replace_fuel_sublist (old new : text) :
  sublist old new -> forall f s, sublist s (replace_fuel f old new s).
Proof.
  intros H. induction f as [|f IH]; intros s; cbn [replace_fuel]; [reflexivity|].
  destruct (partition_at old s) as [[u v]|] eqn:E; [|reflexivity].
  rewrite (partition_at_spec _ _ _ _ E) at 1.
  apply sublist_app; [reflexivity|]. apply sublist_app; [exact H | apply IH].
Qed.

(** Replacing a text by one that holds it keeps every character. *)
Lemma replace_sublist (old new s : text) :
  old <> [] -> sublist old new -> sublist s (replace old new s).
Proof.
  intros Hne H. unfold replace. destruct old; [contradiction|].
  apply replace_fuel_sublist. exact H.
Qed.

(** The template with its text filled in. *)
Lemma complete_root_eq (t : text) :
  replace (raw "CONTENT_TEXT") t TestsFinal.COMPLETE_ROOT =
  (py "root: {\n" ++
   py "                type: 'root',\n" ++
   py "                children: [\n" ++
   py "                  {\n" ++
   py "                    type: 'paragraph',\n" ++
   py "                    version: 1,\n" ++
   py "                    children: [{ type: 'text', text: '") ++ t ++
  (py "' }],\n" ++
   py "                  },\n" ++
   py "                ],\n" ++
   py "                direction: null,\n" ++
   py "                format: '',\n" ++
   py "                indent: 0,\n" ++
   py "                version: 1,\n" ++
   py "              }").
Proof.
  change TestsFinal.COMPLETE_ROOT with
    ((py "root: {\n" ++
      py "                type: 'root',\n" ++
      py "                children: [\n" ++
      py "                  {\n" ++
      py "                    type: 'paragraph',\n" ++
      py "                    version: 1,\n" ++
      py "                    children: [{ type: 'text', text: '") ++
     raw "CONTENT_TEXT" ++
     (py "' }],\n" ++
      py "                  },\n" ++
      py "                ],\n" ++
      py "                direction: null,\n" ++
      py "                format: '',\n" ++
      py "                indent: 0,\n" ++
      py "                version: 1,\n" ++
      py "              }")).
  apply replace_one; [discriminate | vm_compute; reflexivity | vm_compute; reflexivity].
Qed.

(** The complete root and the incomplete one. *)
Lemma complete_root_inserted (t : text) :
  inserted_before
    (py "                direction: null,\n                format: '',\n                indent: 0,\n                version: 1,\n")
    (py "              }")
    (TestsFinal.incomplete t)
    (replace (raw "CONTENT_TEXT") t TestsFinal.COMPLETE_ROOT).
Proof.
  rewrite complete_root_eq.
  exists ((py "root: {\n" ++
           py "                type: 'root',\n" ++
           py "                children: [\n" ++
           py "                  {\n" ++
           py "                    type: 'paragraph',\n" ++
           py "                    version: 1,\n" ++
           py "                    children: [{ type: 'text', text: '") ++ t ++
          py "' }],\n" ++
          py "                  },\n" ++
          py "                ],\n").
  split.
  - unfold TestsFinal.incomplete. rewrite <- !app_assoc. reflexivity.
  - rewrite <- !app_assoc. reflexivity.
Qed.

(** X20.  For every text, also one that holds a quote or the
    placeholder itself, the complete root that [fix_file] builds from
    its template is the incomplete root it looks for with the four
    properties put before the closing brace. *)
Theorem complete_root_adds_the_properties (t : text) :
  inserted_before
    (py "                direction: null,\n                format: '',\n                indent: 0,\n                version: 1,\n")
    (py "              }")
    (TestsFinal.incomplete t)
    (replace (raw "CONTENT_TEXT") t TestsFinal.COMPLETE_ROOT).
Proof. apply complete_root_inserted. Qed.

Lemma incomplete_not_empty (t : text) : TestsFinal.incomplete t <> [].
Proof. unfold TestsFinal.incomplete. discriminate. Qed.

(** X21.  [fix_file] only inserts: whatever the texts it is given, every
    character of the content of the file is in the text it writes, in
    the same order. *)
Theorem tests_final_only_inserts (content_texts : list text) (content : text) :
  sublist content (TestsFinal.fix_text content_texts content).
Proof.
  unfold TestsFinal.fix_text. revert content.
  induction content_texts as [|t ts IH]; intros content; [reflexivity|].
  cbn [fold_left]. etransitivity; [|apply IH].
  apply replace_sublist; [apply incomplete_not_empty|].
  eapply inserted_before_sublist. apply complete_root_inserted.
Qed.

(** The calls of [fix_file] up to a file that is missing. *)
Lemma run_jobs_missing (filepath : string) (content_texts : list text)
    (l2 : list (string * list text)) :
  forall l1 w,
    (forall q, In q (map fst l1) -> files w !! q <> None) ->
    files w !! filepath = None ->
    let r := TestsFinalMain.run_jobs (l1 ++ (filepath, content_texts) :: l2) w in
    fst r = TestsFinalMain.FileNotFoundError filepath
    /\ length (written (snd r)) = length (written w) + length l1
    /\ length (printed (snd r)) = length (printed w) + length l1
    /\ (forall q, ~ In q (map fst l1) -> files (snd r) !! q = files w !! q).
Proof.
  induction l1 as [|[p ts] l1 IH]; intros w Hall Hp; cbv zeta.
  - cbn [app TestsFinalMain.run_jobs]. unfold TestsFinal.fix_file. rewrite Hp.
    cbn. repeat split; lia.
  - cbn [app TestsFinalMain.run_jobs]. unfold TestsFinal.fix_file.
    destruct (files w !! p) as [c|] eqn:Hc;
      [|exfalso; apply (Hall p); [left; reflexivity | exact Hc]].
    assert (Hne : p <> filepath) by (intros ->; congruence).
    set (w1 := print _ (write_file p _ w)).
    assert (Hf : forall q, q <> p -> files w1 !! q = files w !! q).
    { intros q Hq. unfold w1. cbn [print write_file files].
      apply lookup_insert_ne. congruence. }
    specialize (IH w1). cbv zeta in IH.
    destruct IH as (H1 & H2 & H3 & H4).
    + intros q Hq. destruct (decide (q = p)) as [->|Hqp].
      * unfold w1. cbn [print write_file files]. rewrite lookup_insert_eq. discriminate.
      * rewrite (Hf q Hqp). apply Hall. right. exact Hq.
    + rewrite (Hf _ (not_eq_sym Hne)). exact Hp.
    + split; [exact H1|]. split; [|split].
      * rewrite H2. unfold w1. cbn [print write_file written length].
        rewrite length_app. cbn [length]. lia.
      * rewrite H3. unfold w1. cbn [print write_file printed length].
        rewrite length_app. cbn [length]. lia.
      * intros q Hq. rewrite H4 by (intros H; apply Hq; right; exact H).
        apply Hf. intros ->. apply Hq. left. reflexivity.
Qed.

(** X22.  [fix_tests_final.py] is not all or nothing: when one of its
    four files is missing and the files before it exist, the script
    ends with the [FileNotFoundError] of that file after it has written
    and reported each of the files before it; the files after it, and
    every other file, are as they were. *)
Theorem tests_final_stops_at_a_missing_file
    (l1 l2 : list (string * list text)) (filepath : string)
    (content_texts : list text) (w : World) :
  TestsFinalMain.jobs = l1 ++ (filepath, content_texts) :: l2 ->
  (forall q, In q (map fst l1) -> files w !! q <> None) ->
  files w !! filepath = None ->
  fst (TestsFinalMain.run w) = TestsFinalMain.FileNotFoundError filepath
  /\ length (written (snd (TestsFinalMain.run w))) = length (written w) + length l1
  /\ length (printed (snd (TestsFinalMain.run w))) = length (printed w) + length l1
  /\ (forall q, ~ In q (map fst l1) ->
      files (snd (TestsFinalMain.run w)) !! q = files w !! q).
Proof.
  intros Hj Hall Hp. unfold TestsFinalMain.run. rewrite Hj.
  apply run_jobs_missing; assumption.
Qed.

(** X22 at a world that holds the first file only. *)
Lemma tests_final_stops_at_a_missing_file_witness :
  fst (TestsFinalMain.run
         (mkWorld {[ "tests/int/blogs.int.spec.ts"%string := py "const x = 1\n" ]} [] []))
  = TestsFinalMain.FileNotFoundError "tests/int/access-control.int.spec.ts"
  /\ length (written (snd (TestsFinalMain.run
         (mkWorld {[ "tests/int/blogs.int.spec.ts"%string := py "const x = 1\n" ]} [] []))))
     = 0 + 1.
Proof.
  destruct (tests_final_stops_at_a_missing_file
              [nth 0 TestsFinalMain.jobs (""%string, [])]
              (skipn 2 TestsFinalMain.jobs)
              "tests/int/access-control.int.spec.ts" [raw "Content"]
              (mkWorld {[ "tests/int/blogs.int.spec.ts"%string := py "const x = 1\n" ]} [] []))
    as (H1 & H2 & _).
  - reflexivity.
  - intros q [<-|[]]. vm_compute. discriminate.
  - reflexivity.
  - split; [exact H1 | exact H2].
Defined.

(** ** The user rules on any white space *)

Lemma startswith_same_prefix (p x y : text) :
  startswith (p ++ x) (p ++ y) = startswith x y.
Proof.
  induction p as [|a p IH]; [reflexivity|].
  cbn [app startswith]. rewrite ascii_eqb_refl. exact IH.
Qed.

(** Two runs of white space before the same character that is not white
    space: the one starts with the other only when they are equal. *)
Lemma space_run_mismatch (f : ascii) (x y : text) :
  is_space f = false ->
  forall mid ws,
    forallb is_space mid = true -> forallb is_space ws = true -> ws <> mid ->
    startswith (mid ++ f :: x) (ws ++ f :: y) = false.
Proof.
  intros Hf.
  assert (Hsf : forall a, is_space a = true -> ascii_eqb a f = false).
  { intros a Ha. destruct (ascii_eqb a f) eqn:E; [|reflexivity].
    apply ascii_eqb_eq in E. subst. congruence. }
  assert (Hfs : forall a, is_space a = true -> ascii_eqb f a = false).
  { intros a Ha. destruct (ascii_eqb f a) eqn:E; [|reflexivity].
    apply ascii_eqb_eq in E. subst. congruence. }
  induction mid as [|a mid IH]; intros [|b ws] Hmid Hws Hne.
  - contradiction.
  - cbn in Hws. apply andb_true_iff in Hws as [Hb _].
    cbn [app startswith]. rewrite (Hfs b Hb). reflexivity.
  - cbn in Hmid. apply andb_true_iff in Hmid as [Ha _].
    cbn [app startswith]. rewrite (Hsf a Ha). reflexivity.
  - cbn in Hmid, Hws. apply andb_true_iff in Hmid as [Ha Hmid].
    apply andb_true_iff in Hws as [Hb Hws]. cbn [app startswith].
    destruct (ascii_eqb a b) eqn:E; [|reflexivity].
    apply ascii_eqb_eq in E. subst b. cbn [andb].
    apply IH; try assumption. intros ->. contradiction.
Qed.

Lemma partition_at_none (old : text) :
  old <> [] -> forall s, clear_run old s [] = true -> partition_at old s = None.
Proof.
  intros Hne. induction s as [|a s IH]; intros H.
  - destruct old; [contradiction | reflexivity].
  - cbn [clear_run] in H. apply andb_true_iff in H as [Ha Hs].
    apply negb_true_iff in Ha. rewrite app_nil_r in Ha.
    cbn [partition_at]. rewrite Ha, (IH Hs). reflexivity.
Qed.

(** Without an occurrence, [replace] returns the text. *)
Lemma replace_none (old new s : text) :
  old <> [] -> clear_run old s [] = true -> replace old new s = s.
Proof.
  intros Hne H. unfold replace. destruct old as [|a old]; [contradiction|].
  apply replace_fuel_none. apply partition_at_none; [discriminate | exact H].
Qed.

Lemma sublist_nonblank (s s' : text) : sublist s s' -> sublist (nonblank s) (nonblank s').
Proof.
  induction 1 as [|a s s' _ IH|a s s' _ IH]; cbn; [constructor| |].
  - destruct (negb (is_space a)); [constructor|]; exact IH.
  - destruct (negb (is_space a)); [constructor|]; exact IH.
Qed.

(** A repeated class before the rest of a pattern. *)
Lemma den_plus_cls (neg : bool) (l : list citem) (r : regex) (w : text) (c c' : caps) :
  den (Seq (Plus Greedy (Cls neg l)) r) w c c' ->
  exists x w', w = x ++ w' /\ x <> [] /\ forallb (cmatch neg l) x = true /\ den r w' c c'.
Proof.
  unfold Plus. cbn [den]. intros (x & w' & c1 & -> & Hx & Hr).
  destruct Hx as (x1 & x2 & c2 & -> & (a & -> & Ha & ->) & Hx2).
  apply star_cls_den in Hx2 as [-> Hx2].
  exists ([a] ++ x2), w'. split; [reflexivity|]. split; [discriminate|].
  split; [|exact Hr]. cbn. rewrite Ha. cbn.
  induction Hx2 as [|b x Hb _ IH]; cbn; [reflexivity|]. rewrite Hb. exact IH.
Qed.

Lemma cls_space_forallb (x : text) :
  forallb (cmatch false [ISpace]) x = true -> forallb is_space x = true.
Proof.
  apply forallb_impl. intros a Ha. unfold cmatch in Ha. cbn in Ha.
  rewrite orb_false_r in Ha. exact Ha.
Qed.

Lemma cls_word_forallb (x : text) :
  forallb (cmatch false [IWord]) x = true -> forallb is_word x = true.
Proof.
  apply forallb_impl. intros a Ha. unfold cmatch in Ha. cbn in Ha.
  rewrite orb_false_r in Ha. exact Ha.
Qed.

(** The password before other white space than [mid]. *)
Lemma password_not_before (mid ws x y : text) :
  forallb is_space mid = true -> forallb is_space ws = true -> ws <> mid ->
  startswith (raw "password: 'test123'," ++ mid ++ "f"%char :: x)
    (raw "password: 'test123'," ++ ws ++ "f"%char :: y) = false.
Proof.
  intros Hmid Hws Hne. rewrite startswith_same_prefix.
  apply space_run_mismatch; [reflexivity | exact Hmid | exact Hws | exact Hne].
Qed.

(** *** The rule of the test users *)

Lemma test_user_pattern_shape :
  Consolidated.test_user_pattern =
  lit_then (raw "email: `test-")
    (Seq (Plus Greedy (Cls false [IWord]))
       (lit_then (raw "-${Date.now()}@example.com`,")
          (Seq (Plus Greedy (Cls false [ISpace]))
             (lit_then (raw "password: 'test123',")
                (Seq (Plus Greedy (Cls false [ISpace]))
                   (lit_then (raw "roles: ['user'],") Eps)))))).
Proof. reflexivity. Qed.

(** What the pattern of the test users matches. *)
Lemma test_user_den (g : text) (c c' : caps) :
  den Consolidated.test_user_pattern g c c' ->
  exists w ws1 ws2,
    g = test_user_fields w ws1 ws2
    /\ forallb is_word w = true /\ w <> []
    /\ forallb is_space ws1 = true /\ ws1 <> []
    /\ forallb is_space ws2 = true /\ ws2 <> [].
Proof.
  rewrite test_user_pattern_shape. intros H.
  apply den_lit in H as (g1 & -> & H).
  apply den_plus_cls in H as (w & g2 & -> & Nw & Hw & H).
  apply den_lit in H as (g3 & -> & H).
  apply den_plus_cls in H as (ws1 & g4 & -> & N1 & H1 & H).
  apply den_lit in H as (g5 & -> & H).
  apply den_plus_cls in H as (ws2 & g6 & -> & N2 & H2 & H).
  apply den_lit in H as (g7 & -> & [-> _]).
  exists w, ws1, ws2. unfold test_user_fields. rewrite app_nil_r.
  repeat split; try assumption;
    first [apply cls_word_forallb; assumption | apply cls_space_forallb; assumption].
Qed.

Section TestUserAny.
Variables w ws1 ws2 : text.
Hypothesis Hw : forallb is_word w = true.
Hypothesis Nw : w <> [].
Hypothesis Hws1 : forallb is_space ws1 = true.
Hypothesis Nws1 : ws1 <> [].
Hypothesis Hws2 : forallb is_space ws2 = true.
Hypothesis Nws2 : ws2 <> [].

Lemma test_user_fwd_any :
  fwd Consolidated.test_user_pattern (test_user_fields w ws1 ws2) [] [] [].
Proof.
  replace (test_user_fields w ws1 ws2)
    with (raw "email: `test-" ++ w ++ raw "-${Date.now()}@example.com`," ++ ws1 ++
          raw "password: 'test123'," ++ ws2 ++ raw "roles: ['user']," ++ [])
    by (unfold test_user_fields; rewrite app_nil_r; reflexivity).
  unfold Consolidated.test_user_pattern.
  apply (fwd_lit (raw "email: `test-")).
  eapply fwd_seq;
    [apply fwd_plus_cls; [assumption | apply forallb_word_cls; exact Hw | reflexivity]|].
  apply (fwd_lit (raw "-${Date.now()}@example.com`,")).
  fwd_plus_space.
  apply (fwd_lit (raw "password: 'test123',")).
  fwd_plus_space.
  apply (fwd_lit (raw "roles: ['user'],")).
  apply fwd_eps.
Qed.

(** The first [replace] of the rule puts the three lines before the
    roles. *)
Lemma test_user_first_replace :
  replace (py "roles: ['user'],")
    (py "firstName: 'Test',\n        lastName: 'User',\n        password: 'test123',\n        roles: ['user'],")
    (test_user_fields w ws1 ws2)
  = raw "email: `test-" ++ w ++ raw "-${Date.now()}@example.com`," ++ ws1 ++
    raw "password: 'test123'," ++ ws2 ++
    py "firstName: 'Test',\n        lastName: 'User',\n        password: 'test123',\n        roles: ['user'],".
Proof.
  replace (test_user_fields w ws1 ws2)
    with ((raw "email: `test-" ++ w ++ raw "-${Date.now()}@example.com`," ++ ws1 ++
           raw "password: 'test123'," ++ ws2) ++ py "roles: ['user']," ++ [])
    by (unfold test_user_fields; rewrite <- !app_assoc; reflexivity).
  rewrite replace_one; [|discriminate| |reflexivity].
  - rewrite app_nil_r, <- !app_assoc. reflexivity.
  - clear_segments.
Qed.

(** With other white space before the roles than that of the second
    [replace], there is nothing for it to remove. *)
Lemma test_user_second_replace_other :
  ws2 <> py "\n        " ->
  replace (py "password: 'test123',\n        firstName:") (py "firstName:")
    (raw "email: `test-" ++ w ++ raw "-${Date.now()}@example.com`," ++ ws1 ++
     raw "password: 'test123'," ++ ws2 ++
     py "firstName: 'Test',\n        lastName: 'User',\n        password: 'test123',\n        roles: ['user'],")
  = raw "email: `test-" ++ w ++ raw "-${Date.now()}@example.com`," ++ ws1 ++
    raw "password: 'test123'," ++ ws2 ++
    py "firstName: 'Test',\n        lastName: 'User',\n        password: 'test123',\n        roles: ['user'],".
Proof.
  intros Hne. apply replace_none; [discriminate|].
  rewrite !clear_run_app.
  apply andb_true_iff; split; [reflexivity|].
  apply andb_true_iff; split;
    [apply (clear_run_in_run is_word); [reflexivity | exact Hw]|].
  apply andb_true_iff; split; [reflexivity|].
  apply andb_true_iff; split;
    [apply clear_run_other, space_other; [reflexivity | exact Hws1]|].
  apply andb_true_iff; split;
    [|apply andb_true_iff; split;
      [apply clear_run_other, space_other; [reflexivity | exact Hws2] | reflexivity]].
  rewrite app_nil_r.
  change (raw "password: 'test123',") with ("p"%char :: raw "assword: 'test123',").
  cbn [clear_run]. apply andb_true_iff. split; [|reflexivity].
  apply negb_true_iff.
  exact (password_not_before (py "\n        ") ws2 (raw "irstName:")
           (py "irstName: 'Test',\n        lastName: 'User',\n        password: 'test123',\n        roles: ['user'],")
           eq_refl Hws2 Hne).
Qed.

Lemma test_user_repl_other (a b : nat) (c : caps) :
  ws2 <> py "\n        " ->
  Consolidated.test_user_repl (mkMatch a b (test_user_fields w ws1 ws2) c)
  = raw "email: `test-" ++ w ++ raw "-${Date.now()}@example.com`," ++ ws1 ++
    raw "password: 'test123'," ++ ws2 ++
    py "firstName: 'Test',\n        lastName: 'User',\n        password: 'test123',\n        roles: ['user'],".
Proof.
  intros Hne. unfold Consolidated.test_user_repl. cbn [group0].
  rewrite test_user_first_replace. apply test_user_second_replace_other. exact Hne.
Qed.

Lemma test_user_sub_other :
  ws2 <> py "\n        " ->
  re_sub Consolidated.test_user_pattern Consolidated.test_user_repl
    (test_user_fields w ws1 ws2)
  = raw "email: `test-" ++ w ++ raw "-${Date.now()}@example.com`," ++ ws1 ++
    raw "password: 'test123'," ++ ws2 ++
    py "firstName: 'Test',\n        lastName: 'User',\n        password: 'test123',\n        roles: ['user'],".
Proof.
  intros Hne. unfold re_sub.
  replace (2 * length (test_user_fields w ws1 ws2) + 2)
    with (S (2 * length (test_user_fields w ws1 ws2) + 1)) by lia.
  rewrite <- (app_nil_r (test_user_fields w ws1 ws2)) at 2.
  rewrite (sub_loop_head _ _ _ _ _ _ _ test_user_fwd_any)
    by (unfold test_user_fields; discriminate).
  rewrite sub_loop_none by reflexivity.
  rewrite (test_user_repl_other _ _ _ Hne), app_nil_r. reflexivity.
Qed.

Lemma draft_not_on_fields_any :
  re_sub Consolidated.pattern1 Consolidated.add_draft (test_user_fields w ws1 ws2)
  = test_user_fields w ws1 ws2.
Proof.
  apply re_sub_clear; [reflexivity|].
  unfold test_user_fields. clear_segments.
Qed.

Lemma another_not_on_doubled :
  re_sub Consolidated.another_user_pattern Consolidated.another_user_repl
    (raw "email: `test-" ++ w ++ raw "-${Date.now()}@example.com`," ++ ws1 ++
     raw "password: 'test123'," ++ ws2 ++
     py "firstName: 'Test',\n        lastName: 'User',\n        password: 'test123',\n        roles: ['user'],")
  = raw "email: `test-" ++ w ++ raw "-${Date.now()}@example.com`," ++ ws1 ++
    raw "password: 'test123'," ++ ws2 ++
    py "firstName: 'Test',\n        lastName: 'User',\n        password: 'test123',\n        roles: ['user'],".
Proof.
  apply re_sub_clear; [reflexivity|]. clear_segments.
Qed.

Lemma doubled_differs :
  text_eqb
    (raw "email: `test-" ++ w ++ raw "-${Date.now()}@example.com`," ++ ws1 ++
     raw "password: 'test123'," ++ ws2 ++
     py "firstName: 'Test',\n        lastName: 'User',\n        password: 'test123',\n        roles: ['user'],")
    (test_user_fields w ws1 ws2) = false.
Proof.
  apply text_eqb_neq. unfold test_user_fields. intros H.
  repeat apply app_inv_head in H. discriminate.
Qed.

End TestUserAny.

(** X23.  On the fields of a test user with any other white space
    before the roles than a newline and eight spaces, the user rule, in
    [fix-test-files.py] and in [fix_all_test_content.py], finds nothing
    for its second [replace] to remove: the three lines are put before
    the roles and the first password stays, so that the password is
    there twice; the fix is recorded. *)
Theorem test_user_password_twice (w ws1 ws2 : text) (st : Consolidated.State) :
  forallb is_word w = true -> w <> [] ->
  forallb is_space ws1 = true -> ws1 <> [] ->
  forallb is_space ws2 = true -> ws2 <> [] ->
  ws2 <> py "\n        " ->
  Consolidated.fix_user_creation (test_user_fields w ws1 ws2) st
  = (raw "email: `test-" ++ w ++ raw "-${Date.now()}@example.com`," ++ ws1 ++
     raw "password: 'test123'," ++ ws2 ++
     py "firstName: 'Test',\n        lastName: 'User',\n        password: 'test123',\n        roles: ['user'],",
     Consolidated.mkState
       (Consolidated.fixes_applied st ++ [raw "Fixed user creation"])
       (Consolidated.world st))
  /\ AllTestContent.fix_users (test_user_fields w ws1 ws2)
     = raw "email: `test-" ++ w ++ raw "-${Date.now()}@example.com`," ++ ws1 ++
       raw "password: 'test123'," ++ ws2 ++
       py "firstName: 'Test',\n        lastName: 'User',\n        password: 'test123',\n        roles: ['user'],".
Proof.
  intros Hw Nw H1 N1 H2 N2 Hne. split.
  - unfold Consolidated.fix_user_creation, Consolidated.user_creation_text.
    rewrite (draft_not_on_fields_any w ws1 ws2 Hw H1 H2).
    rewrite (test_user_sub_other w ws1 ws2 Hw Nw H1 N1 H2 N2 Hne).
    rewrite (another_not_on_doubled w ws1 ws2 Hw H1 H2).
    rewrite (doubled_differs w ws1 ws2). reflexivity.
  - unfold AllTestContent.fix_users.
    change AllTestContent.test_user_pattern with Consolidated.test_user_pattern.
    change AllTestContent.test_user_repl with Consolidated.test_user_repl.
    change AllTestContent.another_user_pattern with Consolidated.another_user_pattern.
    change AllTestContent.another_user_repl with Consolidated.another_user_repl.
    rewrite (test_user_sub_other w ws1 ws2 Hw Nw H1 N1 H2 N2 Hne).
    apply (another_not_on_doubled w ws1 ws2 Hw H1 H2).
Qed.

(** X23 at fields indented by six spaces. *)
Lemma test_user_password_twice_witness :
  AllTestContent.fix_users (test_user_fields (raw "user") (py "\n      ") (py "\n      "))
  = py "email: `test-user-${Date.now()}@example.com`,\n      password: 'test123',\n      firstName: 'Test',\n        lastName: 'User',\n        password: 'test123',\n        roles: ['user'],".
Proof.
  apply (test_user_password_twice (raw "user") (py "\n      ") (py "\n      ")
           (Consolidated.mkState [] (mkWorld ∅ [] []))); try reflexivity; discriminate.
Defined.

(** *** The rule of the other users *)

Lemma another_user_pattern_shape :
  Consolidated.another_user_pattern =
  lit_then (raw "email: `another-")
    (Seq (Plus Greedy (Cls false [IWord]))
       (lit_then (raw "-${Date.now()}@example.com`,")
          (Seq (Plus Greedy (Cls false [ISpace]))
             (lit_then (raw "password: 'test123',")
                (Seq (Plus Greedy (Cls false [ISpace]))
                   (lit_then (raw "roles: ['user'],") Eps)))))).
Proof. reflexivity. Qed.

(** What the pattern of the other users matches. *)
Lemma another_user_den (g : text) (c c' : caps) :
  den Consolidated.another_user_pattern g c c' ->
  exists w ws1 ws2,
    g = another_user_fields w ws1 ws2
    /\ forallb is_word w = true /\ w <> []
    /\ forallb is_space ws1 = true /\ ws1 <> []
    /\ forallb is_space ws2 = true /\ ws2 <> [].
Proof.
  rewrite another_user_pattern_shape. intros H.
  apply den_lit in H as (g1 & -> & H).
  apply den_plus_cls in H as (w & g2 & -> & Nw & Hw & H).
  apply den_lit in H as (g3 & -> & H).
  apply den_plus_cls in H as (ws1 & g4 & -> & N1 & H1 & H).
  apply den_lit in H as (g5 & -> & H).
  apply den_plus_cls in H as (ws2 & g6 & -> & N2 & H2 & H).
  apply den_lit in H as (g7 & -> & [-> _]).
  exists w, ws1, ws2. unfold another_user_fields. rewrite app_nil_r.
  repeat split; try assumption;
    first [apply cls_word_forallb; assumption | apply cls_space_forallb; assumption].
Qed.

Section AnotherUserAny.
Variables w ws1 ws2 : text.
Hypothesis Hw : forallb is_word w = true.
Hypothesis Nw : w <> [].
Hypothesis Hws1 : forallb is_space ws1 = true.
Hypothesis Nws1 : ws1 <> [].
Hypothesis Hws2 : forallb is_space ws2 = true.
Hypothesis Nws2 : ws2 <> [].

Lemma another_user_fwd_any :
  fwd Consolidated.another_user_pattern (another_user_fields w ws1 ws2) [] [] [].
Proof.
  replace (another_user_fields w ws1 ws2)
    with (raw "email: `another-" ++ w ++ raw "-${Date.now()}@example.com`," ++ ws1 ++
          raw "password: 'test123'," ++ ws2 ++ raw "roles: ['user']," ++ [])
    by (unfold another_user_fields; rewrite app_nil_r; reflexivity).
  unfold Consolidated.another_user_pattern.
  apply (fwd_lit (raw "email: `another-")).
  eapply fwd_seq;
    [apply fwd_plus_cls; [assumption | apply forallb_word_cls; exact Hw | reflexivity]|].
  apply (fwd_lit (raw "-${Date.now()}@example.com`,")).
  fwd_plus_space.
  apply (fwd_lit (raw "password: 'test123',")).
  fwd_plus_space.
  apply (fwd_lit (raw "roles: ['user'],")).
  apply fwd_eps.
Qed.

Lemma another_user_first_replace :
  replace (py "roles: ['user'],")
    (py "firstName: 'Another',\n          lastName: 'User',\n          password: 'test123',\n          roles: ['user'],")
    (another_user_fields w ws1 ws2)
  = raw "email: `another-" ++ w ++ raw "-${Date.now()}@example.com`," ++ ws1 ++
    raw "password: 'test123'," ++ ws2 ++
    py "firstName: 'Another',\n          lastName: 'User',\n          password: 'test123',\n          roles: ['user'],".
Proof.
  replace (another_user_fields w ws1 ws2)
    with ((raw "email: `another-" ++ w ++ raw "-${Date.now()}@example.com`," ++ ws1 ++
           raw "password: 'test123'," ++ ws2) ++ py "roles: ['user']," ++ [])
    by (unfold another_user_fields; rewrite <- !app_assoc; reflexivity).
  rewrite replace_one; [|discriminate| |reflexivity].
  - rewrite app_nil_r, <- !app_assoc. reflexivity.
  - clear_segments.
Qed.

Lemma another_user_second_replace_other :
  ws2 <> py "\n          " ->
  replace (py "password: 'test123',\n          firstName:") (py "firstName:")
    (raw "email: `another-" ++ w ++ raw "-${Date.now()}@example.com`," ++ ws1 ++
     raw "password: 'test123'," ++ ws2 ++
     py "firstName: 'Another',\n          lastName: 'User',\n          password: 'test123',\n          roles: ['user'],")
  = raw "email: `another-" ++ w ++ raw "-${Date.now()}@example.com`," ++ ws1 ++
    raw "password: 'test123'," ++ ws2 ++
    py "firstName: 'Another',\n          lastName: 'User',\n          password: 'test123',\n          roles: ['user'],".
Proof.
  intros Hne. apply replace_none; [discriminate|].
  rewrite !clear_run_app.
  apply andb_true_iff; split; [reflexivity|].
  apply andb_true_iff; split;
    [apply (clear_run_in_run is_word); [reflexivity | exact Hw]|].
  apply andb_true_iff; split; [reflexivity|].
  apply andb_true_iff; split;
    [apply clear_run_other, space_other; [reflexivity | exact Hws1]|].
  apply andb_true_iff; split;
    [|apply andb_true_iff; split;
      [apply clear_run_other, space_other; [reflexivity | exact Hws2] | reflexivity]].
  rewrite app_nil_r.
  change (raw "password: 'test123',") with ("p"%char :: raw "assword: 'test123',").
  cbn [clear_run]. apply andb_true_iff. split; [|reflexivity].
  apply negb_true_iff.
  exact (password_not_before (py "\n          ") ws2 (raw "irstName:")
           (py "irstName: 'Another',\n          lastName: 'User',\n          password: 'test123',\n          roles: ['user'],")
           eq_refl Hws2 Hne).
Qed.

Lemma another_user_second_replace_same :
  replace (py "password: 'test123',\n          firstName:") (py "firstName:")
    (raw "email: `another-" ++ w ++ raw "-${Date.now()}@example.com`," ++ ws1 ++
     raw "password: 'test123'," ++ py "\n          " ++
     py "firstName: 'Another',\n          lastName: 'User',\n          password: 'test123',\n          roles: ['user'],")
  = raw "email: `another-" ++ w ++ raw "-${Date.now()}@example.com`," ++ ws1 ++
    py "firstName: 'Another',\n          lastName: 'User',\n          password: 'test123',\n          roles: ['user'],".
Proof.
  replace (raw "email: `another-" ++ w ++ raw "-${Date.now()}@example.com`," ++ ws1 ++
           raw "password: 'test123'," ++ py "\n          " ++
           py "firstName: 'Another',\n          lastName: 'User',\n          password: 'test123',\n          roles: ['user'],")
    with ((raw "email: `another-" ++ w ++ raw "-${Date.now()}@example.com`," ++ ws1) ++
          py "password: 'test123',\n          firstName:" ++
          py " 'Another',\n          lastName: 'User',\n          password: 'test123',\n          roles: ['user'],")
    by (rewrite <- !app_assoc; reflexivity).
  rewrite replace_one; [|discriminate| |reflexivity].
  - rewrite <- !app_assoc. reflexivity.
  - clear_segments.
Qed.

End AnotherUserAny.

(** The rule of the other users on their fields. *)
Lemma another_user_repl_fields (w ws1 ws2 : text) (a b : nat) (c : caps) :
  forallb is_word w = true -> forallb is_space ws1 = true -> forallb is_space ws2 = true ->
  Consolidated.another_user_repl (mkMatch a b (another_user_fields w ws1 ws2) c)
  = raw "email: `another-" ++ w ++ raw "-${Date.now()}@example.com`," ++ ws1 ++
    (if text_eqb ws2 (py "\n          ") then []
     else raw "password: 'test123'," ++ ws2) ++
    py "firstName: 'Another',\n          lastName: 'User',\n          password: 'test123',\n          roles: ['user'],".
Proof.
  intros Hw H1 H2. unfold Consolidated.another_user_repl. cbn [group0].
  rewrite (another_user_first_replace w ws1 ws2 Hw H1 H2).
  destruct (text_eqb ws2 (py "\n          ")) eqn:E.
  - apply text_eqb_eq in E. subst ws2.
    apply (another_user_second_replace_same w ws1 Hw H1).
  - apply text_eqb_neq in E. rewrite <- !app_assoc.
    apply (another_user_second_replace_other w ws1 ws2 Hw H1 H2 E).
Qed.

(** The rule of the test users on their fields. *)
Lemma test_user_repl_any (w ws1 ws2 : text) (a b : nat) (c : caps) :
  forallb is_word w = true -> forallb is_space ws1 = true -> forallb is_space ws2 = true ->
  Consolidated.test_user_repl (mkMatch a b (test_user_fields w ws1 ws2) c)
  = raw "email: `test-" ++ w ++ raw "-${Date.now()}@example.com`," ++ ws1 ++
    (if text_eqb ws2 (py "\n        ") then []
     else raw "password: 'test123'," ++ ws2) ++
    py "firstName: 'Test',\n        lastName: 'User',\n        password: 'test123',\n        roles: ['user'],".
Proof.
  intros Hw H1 H2. destruct (text_eqb ws2 (py "\n        ")) eqn:E.
  - apply text_eqb_eq in E. subst ws2. apply (test_user_repl_fields w ws1 Hw H1).
  - apply text_eqb_neq in E. rewrite <- !app_assoc.
    apply (test_user_repl_other w ws1 ws2 Hw H1 H2 a b c E).
Qed.

Section AnotherUserRule.
Variables w ws1 : text.
Hypothesis Hw : forallb is_word w = true.
Hypothesis Nw : w <> [].
Hypothesis Hws1 : forallb is_space ws1 = true.
Hypothesis Nws1 : ws1 <> [].

Lemma another_user_sub :
  re_sub Consolidated.another_user_pattern Consolidated.another_user_repl
    (another_user_fields w ws1 (py "\n          "))
  = raw "email: `another-" ++ w ++ raw "-${Date.now()}@example.com`," ++ ws1 ++
    py "firstName: 'Another',\n          lastName: 'User',\n          password: 'test123',\n          roles: ['user'],".
Proof.
  unfold re_sub.
  replace (2 * length (another_user_fields w ws1 (py "\n          ")) + 2)
    with (S (2 * length (another_user_fields w ws1 (py "\n          ")) + 1)) by lia.
  rewrite <- (app_nil_r (another_user_fields w ws1 (py "\n          "))) at 2.
  rewrite (sub_loop_head _ _ _ _ _ _ _
             (another_user_fwd_any w ws1 (py "\n          ") Hw Nw Hws1 Nws1
                eq_refl ltac:(discriminate)))
    by (unfold another_user_fields; discriminate).
  rewrite sub_loop_none by reflexivity.
  rewrite (another_user_repl_fields w ws1 (py "\n          ") _ _ _ Hw Hws1 eq_refl).
  rewrite app_nil_r. reflexivity.
Qed.

Lemma draft_not_on_another :
  re_sub Consolidated.pattern1 Consolidated.add_draft
    (another_user_fields w ws1 (py "\n          "))
  = another_user_fields w ws1 (py "\n          ").
Proof.
  apply re_sub_clear; [reflexivity|].
  unfold another_user_fields. clear_segments.
Qed.

Lemma test_not_on_another :
  re_sub Consolidated.test_user_pattern Consolidated.test_user_repl
    (another_user_fields w ws1 (py "\n          "))
  = another_user_fields w ws1 (py "\n          ").
Proof.
  apply re_sub_clear; [reflexivity|].
  unfold another_user_fields. clear_segments.
Qed.

Lemma another_fixed_differs :
  text_eqb
    (raw "email: `another-" ++ w ++ raw "-${Date.now()}@example.com`," ++ ws1 ++
     py "firstName: 'Another',\n          lastName: 'User',\n          password: 'test123',\n          roles: ['user'],")
    (another_user_fields w ws1 (py "\n          ")) = false.
Proof.
  apply text_eqb_neq. unfold another_user_fields. intros H.
  repeat apply app_inv_head in H. discriminate.
Qed.

End AnotherUserRule.

(** X24.  On the fields of a user whose address starts with
    [another-], with the password ['test123'] and, a newline and ten
    spaces further, the roles [['user']], the user rule, in
    [fix-test-files.py] and in [fix_all_test_content.py], puts
    [firstName: 'Another'] and [lastName: 'User'] between the address
    and the password; the address, the password and the roles keep
    their text, and the fix is recorded. *)
Theorem another_user_fields_fixed (w ws1 : text) (st : Consolidated.State) :
  forallb is_word w = true -> w <> [] ->
  forallb is_space ws1 = true -> ws1 <> [] ->
  Consolidated.fix_user_creation (another_user_fields w ws1 (py "\n          ")) st
  = (raw "email: `another-" ++ w ++ raw "-${Date.now()}@example.com`," ++ ws1 ++
     py "firstName: 'Another',\n          lastName: 'User',\n          password: 'test123',\n          roles: ['user'],",
     Consolidated.mkState
       (Consolidated.fixes_applied st ++ [raw "Fixed user creation"])
       (Consolidated.world st))
  /\ AllTestContent.fix_users (another_user_fields w ws1 (py "\n          "))
     = raw "email: `another-" ++ w ++ raw "-${Date.now()}@example.com`," ++ ws1 ++
       py "firstName: 'Another',\n          lastName: 'User',\n          password: 'test123',\n          roles: ['user'],".
Proof.
  intros Hw Nw H1 N1. split.
  - unfold Consolidated.fix_user_creation, Consolidated.user_creation_text.
    rewrite (draft_not_on_another w ws1 Hw H1).
    rewrite (test_not_on_another w ws1 Hw H1).
    rewrite (another_user_sub w ws1 Hw Nw H1 N1).
    rewrite (another_fixed_differs w ws1). reflexivity.
  - unfold AllTestContent.fix_users.
    change AllTestContent.test_user_pattern with Consolidated.test_user_pattern.
    change AllTestContent.test_user_repl with Consolidated.test_user_repl.
    change AllTestContent.another_user_pattern with Consolidated.another_user_pattern.
    change AllTestContent.another_user_repl with Consolidated.another_user_repl.
    rewrite (test_not_on_another w ws1 Hw H1).
    apply (another_user_sub w ws1 Hw Nw H1 N1).
Qed.

(** X24 at the user [another-user-...]. *)
Lemma another_user_fields_fixed_witness :
  AllTestContent.fix_users
    (another_user_fields (raw "user") (py "\n          ") (py "\n          "))
  = py "email: `another-user-${Date.now()}@example.com`,\n          firstName: 'Another',\n          lastName: 'User',\n          password: 'test123',\n          roles: ['user'],".
Proof.
  apply (another_user_fields_fixed (raw "user") (py "\n          ")
           (Consolidated.mkState [] (mkWorld ∅ [] []))); try reflexivity; discriminate.
Defined.

(** ** What [fix-test-files.py] keeps *)

(** A substitution whose sites keep their characters other than white
    space keeps those of the text. *)
Lemma re_sub_keeps (r : regex) (repl : Match -> text) (s : text) :
  (forall m, den r (group0 m) [] (m_caps m) ->
             sublist (nonblank (group0 m)) (nonblank (repl m))) ->
  sublist (nonblank s) (nonblank (re_sub r repl s)).
Proof.
  intros H. apply rewrites_nonblank.
  apply (re_sub_rewrites r repl (fun w w' => sublist (nonblank w) (nonblank w'))).
  exact H.
Qed.

Lemma subseq_sublist (l k : text) : subseq l k = true -> sublist l k.
Proof.
  revert l. induction k as [|b k IH]; intros [|a l] H; try discriminate.
  - constructor.
  - apply sublist_nil_l.
  - cbn [subseq] in H. destruct (ascii_eqb a b) eqn:E.
    + apply ascii_eqb_eq in E. subst b. apply sublist_skip. apply IH. exact H.
    + apply sublist_cons. apply IH. exact H.
Qed.

Lemma test_user_site_keeps (m : Match) :
  den Consolidated.test_user_pattern (group0 m) [] (m_caps m) ->
  sublist (nonblank (group0 m)) (nonblank (Consolidated.test_user_repl m)).
Proof.
  intros H. destruct m as [a b g c]. cbn [group0 m_caps] in H |- *.
  apply test_user_den in H as (w & ws1 & ws2 & -> & Hw & _ & H1 & _ & H2 & _).
  rewrite (test_user_repl_any w ws1 ws2 a b c Hw H1 H2).
  unfold test_user_fields.
  rewrite !nonblank_app, (nonblank_space ws1 H1), (nonblank_space ws2 H2).
  repeat (apply sublist_app; [reflexivity|]).
  destruct (text_eqb ws2 (py "\n        ")).
  - apply subseq_sublist. vm_compute. reflexivity.
  - rewrite nonblank_app, (nonblank_space ws2 H2), app_nil_r.
    apply sublist_app; [reflexivity|].
    apply subseq_sublist. vm_compute. reflexivity.
Qed.

Lemma another_user_site_keeps (m : Match) :
  den Consolidated.another_user_pattern (group0 m) [] (m_caps m) ->
  sublist (nonblank (group0 m)) (nonblank (Consolidated.another_user_repl m)).
Proof.
  intros H. destruct m as [a b g c]. cbn [group0 m_caps] in H |- *.
  apply another_user_den in H as (w & ws1 & ws2 & -> & Hw & _ & H1 & _ & H2 & _).
  rewrite (another_user_repl_fields w ws1 ws2 a b c Hw H1 H2).
  unfold another_user_fields.
  rewrite !nonblank_app, (nonblank_space ws1 H1), (nonblank_space ws2 H2).
  repeat (apply sublist_app; [reflexivity|]).
  destruct (text_eqb ws2 (py "\n          ")).
  - apply subseq_sublist. vm_compute. reflexivity.
  - rewrite nonblank_app, (nonblank_space ws2 H2), app_nil_r.
    apply sublist_app; [reflexivity|].
    apply subseq_sublist. vm_compute. reflexivity.
Qed.

Lemma user_creation_keeps (content : text) :
  sublist (nonblank content) (nonblank (Consolidated.user_creation_text content)).
Proof.
  unfold Consolidated.user_creation_text.
  etransitivity; [|apply re_sub_keeps; exact another_user_site_keeps].
  etransitivity; [|apply re_sub_keeps; exact test_user_site_keeps].
  apply (re_sub_nonblank _ _ _ _ draft_site).
Qed.

Lemma root_structures_keeps (content : text) :
  sublist (nonblank content) (nonblank (Consolidated.root_structures_text content)).
Proof.
  unfold Consolidated.root_structures_text.
  etransitivity; [|apply (re_sub_nonblank _ _ _ _ root_site_multi)].
  apply (re_sub_nonblank _ _ _ _ root_site).
Qed.

Lemma insert_helper_keeps (content : text) :
  sublist content (AllTestContent.insert_helper content).
Proof.
  unfold AllTestContent.insert_helper.
  destruct (negb (contains (raw "createLexicalContent") content)); [|reflexivity].
  destruct (re_search AllTestContent.import_pattern content) as [m|]; [|reflexivity].
  rewrite <- (firstn_skipn (m_end m) content) at 1.
  apply sublist_app; [reflexivity|]. apply sublist_inserts_l. reflexivity.
Qed.

(** X25.  Without the content fix, [fix-test-files.py] takes nothing
    away: whatever the other fixes selected, the characters of a
    document that are not white space are all in the text it makes of
    the document, in the same order. *)
Theorem consolidated_keeps_text (fix_types : option (list text)) (content : text) :
  Consolidated.selected "lexical-content" fix_types = false ->
  sublist (nonblank content) (nonblank (Consolidated.apply fix_types content)).
Proof.
  intros H. rewrite apply_eq. cbv zeta. rewrite H.
  etransitivity;
    [|destruct (Consolidated.selected "root-structures" fix_types);
      [apply root_structures_keeps | reflexivity]].
  etransitivity;
    [|destruct (Consolidated.selected "user-creation" fix_types);
      [apply user_creation_keeps | reflexivity]].
  destruct (Consolidated.selected "lexical-helper" fix_types); [|reflexivity].
  apply sublist_nonblank, insert_helper_keeps.
Qed.

(** X25 at a document with two roots, with the three other fixes. *)
Lemma consolidated_keeps_text_witness :
  sublist (nonblank two_roots)
    (nonblank (Consolidated.apply
                 (Some [raw "lexical-helper"; raw "user-creation"; raw "root-structures"])
                 two_roots)).
Proof.
  apply (consolidated_keeps_text
           (Some [raw "lexical-helper"; raw "user-creation"; raw "root-structures"])
           two_roots).
  reflexivity.
Defined.
